(** * setuptools-download: manifest language and platform filter

    A shallow embedding of [setuptools_download.py]: the marker (predicate)
    parser and evaluator, the manifest parser, the platform filter and the
    digest check of the fetch step, with the properties of the specification
    stated and settled over them. *)

From Stdlib Require Import NArith String Ascii List.
From stdpp Require Import base option list gmap sets sorting.
Open Scope N_scope.
Open Scope list_scope.

(** ** Python values

    A [str] is the sequence of its Unicode code points, a [bytes] value the
    sequence of its bytes.  Every function of this part follows the
    documented behaviour of the Python built-in it is named after. *)

Abbreviation str := (list N).
Abbreviation bytes := (list Byte.byte).

(** A literal of the source, code point by code point. *)
Definition lit (s : string) : str := N_of_ascii <$> list_ascii_of_string s.

(** The characters the source names. *)
Definition DQUOTE : N := 34.
Definition NL : N := 10.
Definition CR : N := 13.
Definition LBRACKET : N := 91.
Definition RBRACKET : N := 93.
Definition EQUALS : N := 61.

(** The exceptions the module raises or lets through, with their argument. *)
Inductive exn : Type :=
| ValueError (msg : str)
| NotImplementedError (msg : str)
| TypeError (msg : str)
| KeyError (key : str)
| OtherError (msg : str).

Inductive result (A : Type) : Type :=
| Ok (a : A)
| Raise (e : exn).
Arguments Ok {A} a.
Arguments Raise {A} e.

#[global] Instance result_ret : MRet result := λ A a, Ok a.
#[global] Instance result_bind : MBind result := λ A B f m,
  match m with Ok a => f a | Raise e => Raise e end.

Definition is_ok {A} (r : result A) : bool :=
  match r with Ok _ => true | Raise _ => false end.

#[global] Instance exn_eq_dec : EqDecision exn.
Proof. solve_decision. Defined.
#[global] Instance result_eq_dec {A} `{EqDecision A} : EqDecision (result A).
Proof. solve_decision. Defined.

(** [a == b] on str. *)
Definition str_eqb (a b : str) : bool := bool_decide (a = b).

(** [bool(s)]: a str is true when it is not empty. *)
Definition truthy {A} (l : list A) : bool :=
  match l with [] => false | _ => true end.

(** [bool(o)] for [o : str | None]. *)
Definition truthy_opt (o : option str) : bool :=
  match o with None => false | Some s => truthy s end.

(** [s.startswith(p)] and [s.endswith(p)]. *)
Definition startswith (s p : str) : bool := bool_decide (p `prefix_of` s).
Definition endswith (s p : str) : bool := bool_decide (p `suffix_of` s).

(** [sub in s]: [sub] occurs in [s] as a contiguous run. *)
Fixpoint contains (sub s : str) : bool :=
  startswith s sub ||
  match s with
  | [] => false
  | _ :: s' => contains sub s'
  end.

(** [s[1:-1]]. *)
Definition slice_1_m1 (s : str) : str := drop 1 (take (length s - 1) s).

(** [str.isspace] on one character: what [split()] and [strip()] treat as
    white space. *)
Definition isspace (c : N) : bool :=
  ((9 <=? c) && (c <=? 13)) || ((28 <=? c) && (c <=? 32)) ||
  (c =? 0x85) || (c =? 0xA0) || (c =? 0x1680) ||
  ((0x2000 <=? c) && (c <=? 0x200A)) ||
  (c =? 0x2028) || (c =? 0x2029) || (c =? 0x202F) || (c =? 0x205F) ||
  (c =? 0x3000).

(** The line boundaries of [splitlines()], [\r\n] aside. *)
Definition islinebreak (c : N) : bool :=
  ((10 <=? c) && (c <=? 13)) || ((28 <=? c) && (c <=? 30)) ||
  (c =? 0x85) || (c =? 0x2028) || (c =? 0x2029).

(** [s.split()]: the maximal runs of characters that are not white space.
    [cur] is the run being read, last character first. *)
Fixpoint split_ws_go (cur : str) (s : str) : list str :=
  match s with
  | [] => if truthy cur then [reverse cur] else []
  | c :: s' =>
      if isspace c
      then (if truthy cur then reverse cur :: split_ws_go [] s'
            else split_ws_go [] s')
      else split_ws_go (c :: cur) s'
  end.
Definition split_ws (s : str) : list str := split_ws_go [] s.

(** [s.split(sep)] for a non-empty [sep]: cut at every occurrence of [sep],
    leftmost first, occurrences not overlapping.  [skip] counts the
    characters of a separator just found that are still to be passed over. *)
Fixpoint split_go (sep : str) (skip : nat) (cur : str) (s : str) : list str :=
  match s with
  | [] => [reverse cur]
  | c :: s' =>
      match skip with
      | S k => split_go sep k cur s'
      | O =>
          if startswith s sep
          then reverse cur :: split_go sep (length sep - 1) [] s'
          else split_go sep 0 (c :: cur) s'
      end
  end.
Definition split (sep s : str) : list str := split_go sep 0 [] s.

(** [s.split(sep, 1)] for a one-character [sep]: [[s]] when [sep] does not
    occur, else what precedes and what follows its first occurrence. *)
Fixpoint split1_go (sep : N) (cur : str) (s : str) : list str :=
  match s with
  | [] => [reverse cur]
  | c :: s' =>
      if c =? sep then [reverse cur; s'] else split1_go sep (c :: cur) s'
  end.
Definition split1 (sep : N) (s : str) : list str := split1_go sep [] s.

(** [s.strip()]. *)
Fixpoint lstrip (s : str) : str :=
  match s with
  | [] => []
  | c :: s' => if isspace c then lstrip s' else s
  end.
Definition rstrip (s : str) : str := reverse (lstrip (reverse s)).
Definition strip (s : str) : str := rstrip (lstrip s).

(** [s.splitlines()]: the lines of [s] without their ends; a last line that
    is empty is not listed. *)
Fixpoint splitlines_go (cur : str) (s : str) : list str :=
  match s with
  | [] => if truthy cur then [reverse cur] else []
  | c :: s' =>
      if c =? CR
      then match s' with
           | c' :: s'' =>
               if c' =? NL then reverse cur :: splitlines_go [] s''
               else reverse cur :: splitlines_go [] s'
           | [] => [reverse cur]
           end
      else if islinebreak c then reverse cur :: splitlines_go [] s'
      else splitlines_go (c :: cur) s'
  end.
Definition splitlines (s : str) : list str := splitlines_go [] s.

(** [sep.join(l)]. *)
Fixpoint join (sep : str) (l : list str) : str :=
  match l with
  | [] => []
  | [x] => x
  | x :: l' => x ++ sep ++ join sep l'
  end.

(** [a <= b] on str: code point by code point, a proper prefix first. *)
Fixpoint str_leb (a b : str) : bool :=
  match a, b with
  | [], _ => true
  | _ :: _, [] => false
  | x :: a', y :: b' => (x <? y) || ((x =? y) && str_leb a' b')
  end.
Definition str_le (a b : str) : Prop := str_leb a b = true.
#[global] Instance str_le_dec : RelDecision str_le :=
  λ a b, decide (str_leb a b = true).

(** [sorted(l)] on a list of str. *)
Definition sorted (l : list str) : list str := merge_sort str_le l.

(** [s or '']. *)
Definition or_empty (s : option str) : str :=
  match s with
  | Some x => if truthy x then x else lit ""
  | None => lit ""
  end.

(** [zip(it, it)] over one iterator: the items two by two. *)
Fixpoint zip_pairs (l : list str) : list (str * str) :=
  match l with
  | a :: b :: l' => (a, b) :: zip_pairs l'
  | _ => []
  end.

(** What the module takes from the interpreter and its libraries: [repr] of
    a str, the three platform values, [os.path.join] of the host (the one
    of [posixpath] or of [ntpath], as the host has it), the body of a URL,
    and the readers of [tarfile] and [zipfile] ([extractfile] gives [None]
    for a member that is not a file). *)
Class Runtime : Type := {
  repr : str → str;
  os_dot_name : str;
  sys_dot_platform : str;
  platform_dot_machine : str;
  os_path_join : str → str → str;
  urlopen_read : str → result bytes;
  tarfile_extractfile : bytes → str → result (option bytes);
  zipfile_read : bytes → str → result bytes
}.

(** ** The environment keys and the snapshot *)

Inductive _Key : Type := os_name | sys_platform | platform_machine | _internal.

#[global] Instance _Key_eq_dec : EqDecision _Key.
Proof. solve_decision. Defined.

(** [_Key.__members__], in declaration order. *)
Definition _Key_members : list (str * _Key) :=
  [ (lit "os_name", os_name); (lit "sys_platform", sys_platform);
    (lit "platform_machine", platform_machine); (lit "_internal", _internal) ].

(** [name in _Key.__members__] and [_Key[name]]. *)
Definition _Key_has (name : str) : bool := bool_decide (name ∈ _Key_members.*1).
Definition _Key_getitem (name : str) : result _Key :=
  match List.find (λ p, str_eqb p.1 name) _Key_members with
  | Some p => Ok p.2
  | None => Raise (KeyError name)
  end.

Definition _KEY_DISPLAY : str :=
  lit "(" ++
  join (lit "|")
    (List.filter (λ k, negb (str_eqb k (lit "_internal"))) _Key_members.*1) ++
  lit ")".

(** The dict of [_default_env] has a value under each of the four keys, so
    that [env[k]] never fails: a function on [_Key]. *)
Definition _default_env `{Runtime} : _Key → str := λ k,
  match k with
  | os_name => os_dot_name
  | sys_platform => sys_dot_platform
  | platform_machine => platform_dot_machine
  | _internal => lit "hellohello"
  end.

(** ** Markers *)

Module Marker.
Record t : Type := mk { orig : str; parts : list (_Key * str) }.

Definition evaluate (self : t) (env : _Key → str) : bool :=
  forallb (λ kv, str_eqb (env kv.1) kv.2) (parts self).

Definition UNSUPPORTED : str :=
  lit "Marker only supports `and` -- maybe repeat `marker =`?".

Definition invalid (chunk : str) : str :=
  lit "invalid marker part: " ++
  lit "expected: `" ++ _KEY_DISPLAY ++ lit " == " ++ [DQUOTE] ++ lit "..." ++
  [DQUOTE] ++ lit "` got: `" ++ chunk ++ lit "`".

(** The body of the loop over the chunks. *)
Definition parse_chunk (chunk : str) : result (_Key * str) :=
  match split_ws chunk with
  | [p0; p1; p2] =>
      if negb (_Key_has p0) ||
         negb (str_eqb p1 (lit "==")) ||
         negb (startswith p2 [DQUOTE]) ||
         negb (endswith p2 [DQUOTE])
      then Raise (ValueError (invalid chunk))
      else k ← _Key_getitem p0; Ok (k, slice_1_m1 p2)
  | _ => Raise (ValueError (invalid chunk))
  end.

Fixpoint parse_chunks (chunks : list str) : result (list (_Key * str)) :=
  match chunks with
  | [] => Ok []
  | chunk :: rest =>
      kv ← parse_chunk chunk;
      ret ← parse_chunks rest;
      Ok (kv :: ret)
  end.

Definition parse (s : str) : result t :=
  if contains (lit " or ") s
  then Raise (NotImplementedError UNSUPPORTED)
  else
    ret ← parse_chunks (split (lit " and ") s);
    Ok (mk s ret).
End Marker.

#[global] Instance Marker_eq_dec : EqDecision Marker.t.
Proof. solve_decision. Defined.

(** ** Archives and file descriptors *)

Module Archive.
Record t : Type := mk { strategy : str; path : str }.
Definition default : t := mk (lit "noop") (lit "").
End Archive.

Module File.
Record t : Type := mk {
  path : str;
  url : str;
  sha256 : str;
  archive : Archive.t;
  group : option str;
  markers : list Marker.t
}.
End File.

#[global] Instance Archive_eq_dec : EqDecision Archive.t.
Proof. solve_decision. Defined.
#[global] Instance File_eq_dec : EqDecision File.t.
Proof. solve_decision. Defined.

Definition AssertionError (msg : str) : exn := OtherError msg.

Definition _extract_noop (bts : bytes) (src : str) : result bytes := Ok bts.

Definition _extract_tar `{Runtime} (bts : bytes) (src : str) : result bytes :=
  member ← tarfile_extractfile bts src;
  match member with
  | Some contents => Ok contents
  | None => Raise (AssertionError src)
  end.

Definition _extract_zip `{Runtime} (bts : bytes) (src : str) : result bytes :=
  zipfile_read bts src.

Definition _EXTRACT `{Runtime} : gmap str (bytes → str → result bytes) :=
  <[lit "zip" := _extract_zip]>
    (<[lit "tar" := _extract_tar]> (<[lit "noop" := _extract_noop]> ∅)).

(** ** The manifest parser *)

(** The longest run of characters that are neither []] nor a newline at the
    head of [s], and what follows it: the [[^]\n]+] of [_SECTION]. *)
Fixpoint header_run (s : str) : str * str :=
  match s with
  | [] => ([], [])
  | c :: s' =>
      if (c =? RBRACKET) || (c =? NL) then ([], s)
      else let '(run, rest) := header_run s' in (c :: run, rest)
  end.

(** A match of [\[([^]\n]+)\]$] at the head of [s], the place where [^]
    holds: the group it captures.  [$] holds at the end of the text and
    before a newline. *)
Definition _SECTION_match (s : str) : option str :=
  match s with
  | c :: s' =>
      if c =? LBRACKET then
        match header_run s' with
        | ((_ :: _) as name, r :: rest) =>
            if (r =? RBRACKET) &&
               match rest with [] => true | c' :: _ => c' =? NL end
            then Some name else None
        | _ => None
        end
      else None
  | [] => None
  end.

(** [_SECTION.split(s)]: the text between the matches, with the group of
    each match in between.  [bol] says whether [^] holds here, [skip] counts
    the characters of a match still to be passed over. *)
Fixpoint _SECTION_split_go (bol : bool) (skip : nat) (cur : str) (s : str)
  : list str :=
  match s with
  | [] => [reverse cur]
  | c :: s' =>
      match skip with
      | S k => _SECTION_split_go false k cur s'
      | O =>
          match (if bol then _SECTION_match s else None) with
          | Some name =>
              reverse cur :: name ::
              _SECTION_split_go false (length name + 1) [] s'
          | None => _SECTION_split_go (c =? NL) 0 (c :: cur) s'
          end
      end
  end.
Definition _SECTION_split (s : str) : list str := _SECTION_split_go true 0 [] s.

(** The keys a section may give once. *)
Definition VALUE_KEYS : list str :=
  [lit "url"; lit "sha256"; lit "extract"; lit "extract_path"; lit "group"].

Definition UNPACK : str := lit "not enough values to unpack (expected 2, got 1)".

(** The loop over the lines of one section, from the state it has reached. *)
Fixpoint parse_lines (section path : str) (lines : list str)
    (values : gmap str str) (markers : list Marker.t)
  : result (gmap str str * list Marker.t) :=
  match lines with
  | [] => Ok (values, markers)
  | line :: rest =>
      match split1 EQUALS line with
      | [k; v] =>
          let k := strip k in
          let v := strip v in
          if str_eqb k (lit "marker") then
            m ← Marker.parse v;
            parse_lines section path rest values (markers ++ [m])
          else if bool_decide (k ∈ VALUE_KEYS) then
            if bool_decide (is_Some (values !! k)) then
              Raise (ValueError
                (section ++ lit "[" ++ path ++ lit "]" ++ k ++
                 lit ": duplicate key"))
            else parse_lines section path rest (<[k := v]> values) markers
          else
            Raise (ValueError
              (section ++ lit "[" ++ path ++ lit "]" ++ k ++
               lit ": unexpected key"))
      | _ => Raise (ValueError UNPACK)
      end
  end.

(** The checks on a section once its lines are read, and the descriptor. *)
Definition build_file `{Runtime} (section path : str)
    (values : gmap str str) (markers : list Marker.t) : result File.t :=
  let url := values !! lit "url" in
  let sha256 := values !! lit "sha256" in
  let extract := values !! lit "extract" in
  let extract_path := values !! lit "extract_path" in
  let group := values !! lit "group" in
  match url, sha256 with
  | Some url, Some sha256 =>
      if negb (eqb (truthy_opt extract) (truthy_opt extract_path)) then
        Raise (ValueError
          (section ++ lit "[" ++ path ++
           lit "]: missing `extract` + `extract_path`"))
      else
        (* from the archive on: what follows the check of [extract] *)
        let rest : result File.t :=
          let archive :=
            match extract, extract_path with
            | Some e, Some p => Archive.mk e p
            | _, _ => Archive.default
            end in
          if negb (eqb (truthy_opt group) (truthy markers)) then
            Raise (ValueError
              (section ++ lit "[" ++ path ++
               lit "]: missing `group` + `marker`"))
          else Ok (File.mk path url sha256 archive group markers) in
        match extract with
        | Some e =>
            if negb (bool_decide (e ∈ dom _EXTRACT)) then
              Raise (ValueError
                (section ++ lit "[" ++ path ++
                 lit "]extract: unexpected value " ++ repr e ++ lit ", (" ++
                 join (lit ", ")
                   (sorted (elements (dom _EXTRACT ∖ {[lit "noop"]}))) ++
                 lit ")"))
            else rest
        | None => rest
        end
  | _, _ =>
      Raise (ValueError
        (section ++ lit "[" ++ path ++ lit "]: missing `url` + `sha256`"))
  end.

(** One turn of the loop over the sections. *)
Definition parse_section `{Runtime} (section path body : str) : result File.t :=
  '(values, markers) ← parse_lines section path (splitlines (strip body)) ∅ [];
  build_file section path values markers.

Fixpoint parse_sections `{Runtime} (section : str) (l : list (str * str))
  : result (list File.t) :=
  match l with
  | [] => Ok []
  | (path, body) :: rest =>
      f ← parse_section section path body;
      ret ← parse_sections section rest;
      Ok (f :: ret)
  end.

Definition _parse `{Runtime} (s : option str) (section : str)
  : result (list File.t) :=
  match _SECTION_split (strip (or_empty s)) with
  | junk :: parts =>
      if negb (str_eqb junk (lit "")) then
        Raise (ValueError (section ++ lit ": unexpected value: " ++ repr junk))
      else parse_sections section (zip_pairs parts)
  | [] => Raise (OtherError (lit "StopIteration"))
  end.

(** ** The platform filter *)

(** The first loop of [_filter], from the state it has reached; it ends
    with the groups seen. *)
Fixpoint scan (section : str) (ret : list File.t) (seen seen_groups : gset str)
  : result (gset str) :=
  match ret with
  | [] => Ok seen_groups
  | f :: rest =>
      if bool_decide (File.path f ∈ seen) then
        Raise (ValueError
          (section ++ lit ": " ++ File.path f ++ lit " matched multiple times!"))
      else
        let seen := seen ∪ {[File.path f]} in
        match File.group f with
        | Some g =>
            if bool_decide (g ∈ seen_groups) then
              Raise (ValueError
                (section ++ lit ": group=" ++ g ++
                 lit " matched multiple times!"))
            else scan section rest seen (seen_groups ∪ {[g]})
        | None => scan section rest seen seen_groups
        end
  end.

Definition unsupported `{Runtime} (group : str) : str :=
  lit "`" ++ group ++ lit "` is not supported on your platform" ++ [NL; NL] ++
  lit "(debug info):" ++ [NL] ++
  lit "- os_name=" ++ repr os_dot_name ++ [NL] ++
  lit "- sys_platform=" ++ repr sys_dot_platform ++ [NL] ++
  lit "- platform_machine=" ++ repr platform_dot_machine.

(** The second loop of [_filter]. *)
Fixpoint check_groups `{Runtime} (groups : list str) (seen_groups : gset str)
  : result unit :=
  match groups with
  | [] => Ok ()
  | group :: rest =>
      if negb (bool_decide (group ∈ seen_groups)) then
        Raise (ValueError (unsupported group))
      else check_groups rest seen_groups
  end.

(** The condition of the comprehension of [_filter]. *)
Definition selected (env : _Key → str) (f : File.t) : bool :=
  negb (truthy (File.markers f)) ||
  existsb (λ m, Marker.evaluate m env) (File.markers f).

Definition _filter `{Runtime} (src : list File.t) (section : str)
  : result (list File.t) :=
  let env := _default_env in
  let ret := List.filter (selected env) src in
  seen_groups ← scan section ret ∅ ∅;
  _ ← check_groups
        (sorted (elements (list_to_set (omap File.group src) : gset str)))
        seen_groups;
  Ok ret.

(** ** The fetch step *)

(** [hashlib.sha256(data).hexdigest()], after FIPS 180-4, on 32-bit words
    held in [N]. *)
Module hashlib.
Definition MASK : N := 0xFFFFFFFF.
Definition add32 (a b : N) : N := N.land (a + b) MASK.
Definition rotr (n x : N) : N :=
  N.lor (N.shiftr x n) (N.land (N.shiftl x (32 - n)) MASK).
Definition xor3 (a b c : N) : N := N.lxor (N.lxor a b) c.
Definition Ch (x y z : N) : N :=
  N.lxor (N.land x y) (N.land (N.lxor x MASK) z).
Definition Maj (x y z : N) : N :=
  xor3 (N.land x y) (N.land x z) (N.land y z).
Definition bsig0 (x : N) : N := xor3 (rotr 2 x) (rotr 13 x) (rotr 22 x).
Definition bsig1 (x : N) : N := xor3 (rotr 6 x) (rotr 11 x) (rotr 25 x).
Definition ssig0 (x : N) : N := xor3 (rotr 7 x) (rotr 18 x) (N.shiftr x 3).
Definition ssig1 (x : N) : N := xor3 (rotr 17 x) (rotr 19 x) (N.shiftr x 10).

(** The constants: the first 32 bits of the fractional parts of the cube
    roots of the first 64 primes, and of the square roots of the first 8. *)
Definition is_prime (p : N) : bool :=
  forallb (λ d, negb (p mod d =? 0)) (N.of_nat <$> seq 2 (N.to_nat p - 2)).

Definition PRIMES : list N :=
  List.filter is_prime (N.of_nat <$> seq 2 310).

(** The integer [k]-th root of [x], bit by bit from bit [bits] down. *)
Fixpoint root_go (k x : N) (bits : nat) (r : N) : N :=
  match bits with
  | O => r
  | S b =>
      let r' := N.lor r (N.shiftl 1 (N.of_nat b)) in
      root_go k x b (if r' ^ k <=? x then r' else r)
  end.

Definition frac32 (k p : N) : N :=
  N.land (root_go k (N.shiftl p (32 * k)) 40 0) MASK.

Definition K : list N := Eval vm_compute in frac32 3 <$> take 64 PRIMES.

Definition H0 : list N := Eval vm_compute in frac32 2 <$> take 8 PRIMES.

(** The [n] low bytes of [x], most significant first. *)
Fixpoint be_bytes (n : nat) (x : N) : list N :=
  match n with
  | O => []
  | S n' => N.land (N.shiftr x (8 * N.of_nat n')) 0xFF :: be_bytes n' x
  end.

(** The message with its padding: a [1] bit, zeros, and the length in
    bits on 64 bits, to a multiple of 64 bytes. *)
Definition pad (msg : list N) : list N :=
  let len := length msg in
  let zeros := ((64 - (len + 9) `mod` 64) `mod` 64)%nat in
  msg ++ [0x80] ++ replicate zeros 0 ++ be_bytes 8 (8 * N.of_nat len).

(** [l] cut into runs of [n] items; [k] items are missing from [cur]. *)
Fixpoint chunks_go {A} (n k : nat) (cur : list A) (l : list A)
  : list (list A) :=
  match l with
  | [] => if truthy cur then [reverse cur] else []
  | x :: l' =>
      match k with
      | S O | O => reverse (x :: cur) :: chunks_go n n [] l'
      | S k' => chunks_go n k' (x :: cur) l'
      end
  end.
Definition chunks {A} (n : nat) (l : list A) : list (list A) :=
  chunks_go n n [] l.

Definition word_of (bs : list N) : N :=
  foldl (λ acc b, N.lor (N.shiftl acc 8) b) 0 bs.

(** The message schedule, [n] words further. *)
Fixpoint schedule (n : nat) (w : list N) : list N :=
  match n with
  | O => w
  | S n' =>
      let t := length w in
      let at_ (i : nat) := nth (t - i) w 0 in
      schedule n'
        (w ++ [add32 (add32 (ssig1 (at_ 2%nat)) (at_ 7%nat))
                     (add32 (ssig0 (at_ 15%nat)) (at_ 16%nat))])
  end.

Definition round (st : list N) (kw : N * N) : list N :=
  match st with
  | [a; b; c; d; e; f; g; h] =>
      let t1 :=
        add32 (add32 (add32 h (bsig1 e)) (add32 (Ch e f g) kw.1)) kw.2 in
      let t2 := add32 (bsig0 a) (Maj a b c) in
      [add32 t1 t2; a; b; c; add32 d t1; e; f; g]
  | _ => st
  end.

Definition compress (h : list N) (block : list N) : list N :=
  let w := schedule 48 (word_of <$> chunks 4 block) in
  zip_with add32 h (foldl round h (zip K w)).

Definition digest (data : bytes) : list N :=
  foldl compress H0 (chunks 64 (pad (Byte.to_N <$> data))).

Definition hexdigit (d : N) : N := if d <? 10 then 48 + d else 87 + d.

Definition hex_of_byte (b : N) : str :=
  [hexdigit (N.shiftr b 4); hexdigit (N.land b 0xF)].

Definition sha256_hexdigest (data : bytes) : str :=
  digest data ≫= (λ w, be_bytes 4 w ≫= hex_of_byte).
End hashlib.

(** [secrets.compare_digest(a, b)] on two str: equality, for ASCII only. *)
Definition isascii (s : str) : bool := forallb (λ c, c <? 128) s.
Definition compare_digest (a b : str) : result bool :=
  if isascii a && isascii b then Ok (str_eqb a b)
  else Raise (TypeError
    (lit "comparing strings with non-ASCII characters is not supported")).

(** [posixpath.join(a, b)]: what [os.path.join] is on a host whose
    [os.name] is [posix]. *)
Definition posixpath_join (a b : str) : str :=
  if startswith b (lit "/") then b
  else if negb (truthy a) || endswith a (lit "/") then a ++ b
  else a ++ lit "/" ++ b.

(** [_EXTRACT[name]]. *)
Definition _EXTRACT_getitem `{Runtime} (name : str)
  : result (bytes → str → result bytes) :=
  match _EXTRACT !! name with
  | Some f => Ok f
  | None => Raise (KeyError name)
  end.

Definition mismatch `{Runtime} (f : File.t) (got : str) : str :=
  File.path f ++ lit ": checksum mismatch got=" ++ repr got ++
  lit " f.sha256=" ++ repr (File.sha256 f).

(** What [_download] does once the digest is accepted.  The file system is
    the map from the paths of the files written, as the texts given to
    [open], to their contents: two texts that name one file are two keys,
    directories are not kept, and the failures of [os.makedirs] and of
    [open] are not modelled, so that this step always writes once the
    member is extracted. *)
Definition store `{Runtime} (f : File.t) (base : str) (contents : bytes)
    (fs : gmap str bytes) : result (gmap str bytes) :=
  extract ← _EXTRACT_getitem (Archive.strategy (File.archive f));
  contents ← extract contents (Archive.path (File.archive f));
  let dest := os_path_join base (File.path f) in
  Ok (<[dest := contents]> fs).

Definition _download `{Runtime} (f : File.t) (base : str) (fs : gmap str bytes)
  : result (gmap str bytes) :=
  contents ← urlopen_read (File.url f);
  let got := hashlib.sha256_hexdigest contents in
  same ← compare_digest got (File.sha256 f);
  if negb same then Raise (ValueError (mismatch f got))
  else store f base contents fs.

(** ** The words of the specification *)

(** A predicate is true when every pair of it matches the snapshot. *)
Definition marker_holds (env : _Key → str) (m : Marker.t) : Prop :=
  Forall (λ kv, env kv.1 = kv.2) (Marker.parts m).

(** A descriptor applies when its predicate list is empty or at least one
    of its predicates is true. *)
Definition applies (env : _Key → str) (f : File.t) : Prop :=
  File.markers f = [] ∨ Exists (marker_holds env) (File.markers f).

#[global] Instance marker_holds_dec env m : Decision (marker_holds env m).
Proof. unfold marker_holds. apply _. Defined.
#[global] Instance applies_dec env f : Decision (applies env f).
Proof. unfold applies. apply _. Defined.

(** The paths and the group names a sequence of descriptors carries. *)
Definition paths_of (l : list File.t) : list str := File.path <$> l.
Definition groups_of (l : list File.t) : list str := omap File.group l.

(** Hexadecimal digits read without regard to case. *)
Definition lower (s : str) : str :=
  (λ c, if (65 <=? c) && (c <=? 90) then c + 32 else c) <$> s.

(** The names [_Key.__members__] holds. *)
Definition KEY_NAMES : list str :=
  [lit "os_name"; lit "sys_platform"; lit "platform_machine"; lit "_internal"].

(** ** A host for the examples

    [repr_plain] is [repr] on a str without quote, backslash or character
    that does not print; the host serves one URL and no archive. *)
Definition repr_plain (s : str) : str := lit "'" ++ s ++ lit "'".

Definition linux_host : Runtime := {|
  repr := repr_plain;
  os_dot_name := lit "posix";
  sys_dot_platform := lit "linux";
  platform_dot_machine := lit "x86_64";
  os_path_join := posixpath_join;
  urlopen_read := λ url,
    if str_eqb url (lit "http://localhost/plain")
    then Ok (list_byte_of_string "hello hello")
    else Raise (OtherError (lit "URLError"));
  tarfile_extractfile := λ _ _, Raise (OtherError (lit "ReadError"));
  zipfile_read := λ _ _, Raise (OtherError (lit "BadZipFile"))
|}.

(** A predicate text [key == "value"], as a manifest writes it. *)
Definition clause (key value : string) : str :=
  lit key ++ lit " == " ++ [DQUOTE] ++ lit value ++ [DQUOTE].

(** ** Descriptors for the examples *)

(** What [Marker.parse] gives for the text [name == "value"]. *)
Definition marker_of (key : _Key) (name value : string) : Marker.t :=
  Marker.mk (clause name value) [(key, lit value)].

(** A descriptor without group and markers, and one of a group. *)
Definition plain (path digest : string) : File.t :=
  File.mk (lit path) (lit "https://example.com/" ++ lit path) (lit digest)
    Archive.default None [].
Definition grouped (path digest group : string) (ms : list Marker.t) : File.t :=
  File.mk (lit path) (lit "https://example.com/" ++ lit path) (lit digest)
    Archive.default (Some (lit group)) ms.

(** ** Manifests for the examples *)

Definition MANIFEST_AR : str := lit "[f1]
url = https://example.com/f1.ar
sha256 = deadbeef
extract = ar
extract_path = release-v1.0/f1
".

Definition MANIFEST_AR_ALONE : str := lit "[f1]
url = https://example.com/f1.ar
sha256 = deadbeef
extract = ar
".

Definition MANIFEST_NOOP : str := lit "[f1]
url = https://example.com/f1.ar
sha256 = deadbeef
extract = noop
extract_path = release-v1.0/f1
".

Definition MANIFEST_EMPTY_GROUP : str := lit "[f1]
url = https://example.com/f1
sha256 = deadbeef
group =
".

(** ** A download for the examples *)

Definition served (digest : string) : File.t :=
  File.mk (lit "share/example/f") (lit "http://localhost/plain") (lit digest)
    Archive.default None [].

Definition DIGEST_LOWER : string :=
  "20d0bfe91d80a9f32ccf947f957582a940ab2f9998b1007511dba32f087016e0".
Definition DIGEST_UPPER : string :=
  "20D0BFE91D80A9F32CCF947F957582A940AB2F9998B1007511DBA32F087016E0".

(** ** The manifest of the test suite *)

Definition MANIFEST_TEST : str :=
  lit "[f1]
url = https://example.com/f1
sha256 = deadbeef
[f2]
url = https://example.com/f2.tar.gz
sha256 = cafecafe
extract = tar
extract_path = release-1.0/f2
[f3.exe]
url = https://example.com/f3.exe
sha256 = baadbaad
group = f3-binary
marker = " ++ clause "sys_platform" "cygwin" ++ lit "
marker = " ++ clause "sys_platform" "win32" ++ lit "
[f3]
url = https://example.com/f3
sha256 = daaddaad
group = f3-binary
marker = " ++ clause "sys_platform" "linux" ++ lit "
".

Definition FILES_TEST : list File.t :=
  [ plain "f1" "deadbeef";
    File.mk (lit "f2") (lit "https://example.com/f2.tar.gz") (lit "cafecafe")
      (Archive.mk (lit "tar") (lit "release-1.0/f2")) None [];
    grouped "f3.exe" "baadbaad" "f3-binary"
      [marker_of sys_platform "sys_platform" "cygwin";
       marker_of sys_platform "sys_platform" "win32"];
    grouped "f3" "daaddaad" "f3-binary"
      [marker_of sys_platform "sys_platform" "linux"] ].

(** ** The download command

    [setuptools_download] with its options as fields.  The world it runs
    in is the map of the files written and the lines printed. *)

(** [k.name] for a member of [_Key]. *)
Definition _Key_name (k : _Key) : str :=
  match k with
  | os_name => lit "os_name"
  | sys_platform => lit "sys_platform"
  | platform_machine => lit "platform_machine"
  | _internal => lit "_internal"
  end.

Record world : Type := World { files : gmap str bytes; stdout : list str }.

(** [print(line)]. *)
Definition print (line : str) (w : world) : world :=
  World (files w) (stdout w ++ [line]).

Module setuptools_download.
Record t : Type := mk {
  download_data_files : option str;
  parsed_data_files : option (list File.t);
  download_scripts : option str;
  parsed_scripts : option (list File.t);
  build_temp : option str;
  download_dir : option str
}.

Definition initialize_options : t := mk None None None None None None.

(** [getattr(self, attr)] for the two options [_parse] is called on. *)
Definition getattr (self : t) (attr : str) : result (option str) :=
  if str_eqb attr (lit "download_data_files") then Ok (download_data_files self)
  else if str_eqb attr (lit "download_scripts") then Ok (download_scripts self)
  else Raise (OtherError (lit "AttributeError")).

Definition _parse `{Runtime} (self : t) (attr : str) : result (list File.t) :=
  text ← getattr self attr;
  files ← _parse text attr;
  _filter files attr.

(** [finalize_options]; [build_build_temp] is the [build_temp] of the
    [build] command, which [_init_options] copies when the option of this
    command is not set. *)
Definition finalize_options `{Runtime} (build_build_temp : option str)
    (self : t) : result t :=
  data_files ← _parse self (lit "download_data_files");
  scripts ← _parse self (lit "download_scripts");
  let build_temp :=
    match build_temp self with
    | None => build_build_temp
    | Some dir => Some dir
    end in
  match build_temp with
  | None => Raise (AssertionError (lit ""))
  | Some dir =>
      Ok (mk (download_data_files self) (Some data_files)
            (download_scripts self) (Some scripts)
            (Some dir) (Some (os_path_join dir (lit "download"))))
  end.

(** The inner loop of [run]: the files of one subdirectory, up to the first
    download that fails. *)
Fixpoint download_files `{Runtime} (base : str) (l : list File.t) (w : world)
  : world * result unit :=
  match l with
  | [] => (w, Ok ())
  | f :: rest =>
      let w := print (lit "=> downloading " ++ File.path f ++ lit "...") w in
      match _download f base (files w) with
      | Ok fs => download_files base rest (World fs (stdout w))
      | Raise e => (w, Raise e)
      end
  end.

Definition run `{Runtime} (self : t) (w : world) : world * result unit :=
  match download_dir self, parsed_data_files self, parsed_scripts self with
  | Some dir, Some data_files, Some scripts =>
      match download_files (os_path_join dir (lit "data_files")) data_files w with
      | (w, Ok _) =>
          download_files (os_path_join dir (lit "scripts")) scripts w
      | (w, Raise e) => (w, Raise e)
      end
  | _, _, _ => (w, Raise (AssertionError (lit "")))
  end.
End setuptools_download.

(** ** Further words for the properties *)

(** The pieces of [_SECTION.split] put back, each header between its
    brackets. *)
Fixpoint rejoin (l : list str) : str :=
  match l with
  | [] => []
  | [piece] => piece
  | piece :: name :: rest =>
      piece ++ [LBRACKET] ++ name ++ [RBRACKET] ++ rejoin rest
  end.

(** A str without white space. *)
Definition nospace (s : str) : Prop := Forall (λ c, isspace c = false) s.

(** What a section header may hold: one character at least, none of them
    []] or a newline. *)
Definition header_name (s : str) : Prop :=
  s ≠ [] ∧ Forall (λ c, c ≠ RBRACKET ∧ c ≠ NL) s.

(** The pieces [_SECTION.split] gives: text, then header and text in
    turn. *)
Inductive pieces : list str → Prop :=
| pieces_last (text : str) : pieces [text]
| pieces_header (text name : str) (rest : list str) :
    header_name name → pieces rest → pieces (text :: name :: rest).





(** The command of the examples: one data file, the one the host serves. *)
Definition MANIFEST_SERVED : str :=
  lit "[share/example/f]
url = http://localhost/plain
sha256 = " ++ lit DIGEST_LOWER ++ [NL].

Definition COMMAND_SERVED : setuptools_download.t :=
  setuptools_download.mk (Some MANIFEST_SERVED) None None None None None.

Definition COMMAND_FINALIZED : setuptools_download.t :=
  setuptools_download.mk (Some MANIFEST_SERVED) (Some [served DIGEST_LOWER])
    None (Some []) (Some (lit "build/temp"))
    (Some (lit "build/temp/download")).


(** The texts of the [marker] lines among the lines of a section, in
    order. *)
Definition marker_texts (lines : list str) : list str :=
  omap (λ line,
          match split1 EQUALS line with
          | [k; v] =>
              if str_eqb (strip k) (lit "marker") then Some (strip v) else None
          | _ => None
          end) lines.

(** * Properties *)

(** ** Strings *)

Lemma startswith_true (s p : str) : startswith s p = true ↔ ∃ t, s = p ++ t.
Proof. unfold startswith. rewrite bool_decide_eq_true. reflexivity. Qed.

Lemma endswith_true (s p : str) : endswith s p = true ↔ ∃ t, s = t ++ p.
Proof. unfold endswith. rewrite bool_decide_eq_true. reflexivity. Qed.

Lemma contains_true (sub s : str) :
  contains sub s = true ↔ ∃ pre post, s = pre ++ sub ++ post.
Proof.
  induction s as [|c s IH]; simpl.
  - rewrite orb_false_r, startswith_true. split.
    + intros [t Ht]. exists [], t. exact Ht.
    + intros (pre & post & Hs). symmetry in Hs.
      apply app_eq_nil in Hs as [-> Hs]. apply app_eq_nil in Hs as [-> ->].
      exists []. reflexivity.
  - rewrite orb_true_iff, startswith_true, IH. split.
    + intros [[t Ht] | (pre & post & Hs)].
      * exists [], t. exact Ht.
      * exists (c :: pre), post. rewrite Hs. reflexivity.
    + intros (pre & post & Hs). destruct pre as [|c' pre]; simpl in Hs.
      * left. exists post. exact Hs.
      * right. injection Hs as _ Hs. exists pre, post. exact Hs.
Qed.

(** ** Markers *)

Lemma parse_or (pre post : str) :
  Marker.parse (pre ++ lit " or " ++ post)
  = Raise (NotImplementedError Marker.UNSUPPORTED).
Proof.
  unfold Marker.parse.
  assert (contains (lit " or ") (pre ++ lit " or " ++ post) = true) as ->.
  { apply contains_true. exists pre, post. reflexivity. }
  reflexivity.
Qed.

Lemma KEY_NAMES_members : _Key_members.*1 = KEY_NAMES.
Proof. reflexivity. Qed.

Lemma _Key_has_true (name : str) : _Key_has name = true ↔ name ∈ KEY_NAMES.
Proof. unfold _Key_has. rewrite bool_decide_eq_true, KEY_NAMES_members. reflexivity. Qed.

Lemma _Key_getitem_ok (name : str) :
  name ∈ KEY_NAMES → ∃ k, _Key_getitem name = Ok k.
Proof.
  unfold KEY_NAMES. rewrite !elem_of_cons, elem_of_nil.
  intros [-> | [-> | [-> | [-> | []]]]]; vm_compute; eauto.
Qed.

Lemma invalid_text (chunk : str) :
  Marker.invalid chunk
  = lit "invalid marker part: expected: `(os_name|sys_platform|platform_machine) == "
    ++ [DQUOTE] ++ lit "..." ++ [DQUOTE] ++ lit "` got: `" ++ chunk ++ lit "`".
Proof. reflexivity. Qed.

(** A clause of three tokens is accepted exactly when the four tests of
    the source hold of them. *)
Lemma parse_chunk_tokens (chunk key op value : str) :
  split_ws chunk = [key; op; value] →
  (key ∈ KEY_NAMES ∧ op = lit "==" ∧
   startswith value [DQUOTE] = true ∧ endswith value [DQUOTE] = true ∧
   ∃ k, _Key_getitem key = Ok k ∧
        Marker.parse_chunk chunk = Ok (k, slice_1_m1 value))
  ∨ ((key ∉ KEY_NAMES ∨ op ≠ lit "==" ∨
      startswith value [DQUOTE] = false ∨ endswith value [DQUOTE] = false) ∧
     Marker.parse_chunk chunk = Raise (ValueError (Marker.invalid chunk))).
Proof.
  intros Htok. unfold Marker.parse_chunk. rewrite Htok.
  destruct (_Key_has key) eqn:Hkey; simpl.
  - apply _Key_has_true in Hkey. unfold str_eqb. case_bool_decide as Hop; simpl.
    + destruct (startswith value [DQUOTE]) eqn:Hs; simpl.
      * destruct (endswith value [DQUOTE]) eqn:He; simpl.
        -- left. destruct (_Key_getitem_ok key Hkey) as [k Hk].
           repeat split; try done. exists k. rewrite Hk. done.
        -- right. split; [auto | done].
      * right. split; [auto | done].
    + right. split; [auto | done].
  - right. split; [| done]. left. rewrite <- _Key_has_true. congruence.
Qed.

(** A clause is refused with one message only. *)
Lemma parse_chunk_raise (chunk : str) (e : exn) :
  Marker.parse_chunk chunk = Raise e → e = ValueError (Marker.invalid chunk).
Proof.
  unfold Marker.parse_chunk.
  destruct (split_ws chunk) as [|p0 [|p1 [|p2 [|p3 l]]]] eqn:Htok;
    try (intros [= <-]; reflexivity).
  destruct (parse_chunk_tokens chunk p0 p1 p2 Htok)
    as [(_ & _ & _ & _ & k & _ & Hok) | [_ Hbad]];
    unfold Marker.parse_chunk in *; rewrite Htok in *.
  - rewrite Hok. discriminate.
  - rewrite Hbad. intros [= <-]. reflexivity.
Qed.

(** The loop over the clauses stops at the first clause it refuses. *)
Lemma parse_chunks_raise (chunks : list str) (chunk : str) (e : exn) :
  chunk ∈ chunks → Marker.parse_chunk chunk = Raise e →
  ∃ bad, bad ∈ chunks ∧
    Marker.parse_chunks chunks = Raise (ValueError (Marker.invalid bad)).
Proof.
  induction chunks as [|c chunks IH]; intros Hin Hbad.
  - apply elem_of_nil in Hin as [].
  - simpl. destruct (Marker.parse_chunk c) as [kv|e'] eqn:Hc.
    + apply elem_of_cons in Hin as [-> | Hin]; [congruence|].
      destruct (IH Hin Hbad) as (bad & Hb & ->).
      exists bad. split; [by apply list_elem_of_further | done].
    + exists c. split; [by apply list_elem_of_here |].
      apply parse_chunk_raise in Hc as ->. done.
Qed.

Lemma parse_raise_clause (s chunk : str) (e : exn) :
  contains (lit " or ") s = false →
  chunk ∈ split (lit " and ") s → Marker.parse_chunk chunk = Raise e →
  ∃ bad, bad ∈ split (lit " and ") s ∧
    Marker.parse s = Raise (ValueError (Marker.invalid bad)).
Proof.
  intros Hor Hin Hbad. unfold Marker.parse. rewrite Hor.
  destruct (parse_chunks_raise _ _ _ Hin Hbad) as (bad & Hb & ->).
  exists bad. done.
Qed.

(** The clause reported is the first one refused: the clauses before it
    are accepted. *)
Lemma parse_chunks_first (chunks : list str) (chunk : str) (e : exn) :
  chunk ∈ chunks → Marker.parse_chunk chunk = Raise e →
  ∃ pre bad post, chunks = pre ++ bad :: post ∧
    Forall (λ c, is_ok (Marker.parse_chunk c) = true) pre ∧
    is_ok (Marker.parse_chunk bad) = false ∧
    Marker.parse_chunks chunks = Raise (ValueError (Marker.invalid bad)).
Proof.
  induction chunks as [|c chunks IH]; intros Hin Hbad.
  - apply elem_of_nil in Hin as [].
  - simpl. destruct (Marker.parse_chunk c) as [kv|e'] eqn:Hc.
    + apply elem_of_cons in Hin as [-> | Hin]; [congruence|].
      destruct (IH Hin Hbad) as (pre & bad & post & -> & Hpre & Hb & ->).
      exists (c :: pre), bad, post. split; [done |].
      split; [| done]. apply Forall_cons. split; [by rewrite Hc | done].
    + exists [], c, chunks. split; [done |]. split; [constructor |].
      split; [by rewrite Hc |].
      apply parse_chunk_raise in Hc as ->. done.
Qed.

Lemma parse_first_refused (s chunk : str) (e : exn) :
  contains (lit " or ") s = false →
  chunk ∈ split (lit " and ") s → Marker.parse_chunk chunk = Raise e →
  ∃ pre bad post, split (lit " and ") s = pre ++ bad :: post ∧
    Forall (λ c, is_ok (Marker.parse_chunk c) = true) pre ∧
    is_ok (Marker.parse_chunk bad) = false ∧
    Marker.parse s = Raise (ValueError (Marker.invalid bad)).
Proof.
  intros Hor Hin Hbad. unfold Marker.parse. rewrite Hor.
  destruct (parse_chunks_first _ _ _ Hin Hbad)
    as (pre & bad & post & Hsplit & Hpre & Hb & ->).
  by exists pre, bad, post.
Qed.

Lemma parse_single (s : str) :
  contains (lit " or ") s = false → split (lit " and ") s = [s] →
  Marker.parse s = (kv ← Marker.parse_chunk s; Ok (Marker.mk s [kv])).
Proof.
  intros Hor Hsplit. unfold Marker.parse. rewrite Hor, Hsplit. simpl.
  destruct (Marker.parse_chunk s); reflexivity.
Qed.

(** A token passes the two quote tests of the source when it is wrapped in
    a pair of double quotes, and also when it is one double quote alone. *)
Lemma quote_tests (value : str) :
  startswith value [DQUOTE] = true ∧ endswith value [DQUOTE] = true
  ↔ value = [DQUOTE] ∨ ∃ mid, value = [DQUOTE] ++ mid ++ [DQUOTE].
Proof.
  rewrite startswith_true, endswith_true. split.
  - intros [[t Ht] [u Hu]]. destruct u as [|c u].
    + left. exact Hu.
    + right. subst value. simpl in Hu. injection Hu as <- Hu.
      exists u. simpl. by rewrite Hu.
  - intros [-> | [mid ->]].
    + split; [by exists [] | by exists []].
    + split; [by exists (mid ++ [DQUOTE]) | by exists ([DQUOTE] ++ mid)].
Qed.

(** ** Order and sorting *)

Lemma str_leb_total (a b : str) : str_leb a b = true ∨ str_leb b a = true.
Proof.
  revert b. induction a as [|x a IH]; intros [|y b]; simpl; auto.
  destruct (IH b) as [H | H]; rewrite H, ?andb_true_r;
    destruct (N.ltb_spec x y), (N.ltb_spec y x), (N.eqb_spec x y),
      (N.eqb_spec y x); simpl; auto; lia.
Qed.

Lemma str_leb_trans (a b c : str) :
  str_leb a b = true → str_leb b c = true → str_leb a c = true.
Proof.
  revert b c. induction a as [|x a IH]; intros [|y b] [|z c]; simpl; auto;
    try discriminate.
  rewrite !orb_true_iff, !andb_true_iff, !N.ltb_lt, !N.eqb_eq.
  intros [Hxy | [-> Hab]] [Hyz | [-> Hbc]]; try (left; lia).
  right. eauto.
Qed.

#[global] Instance str_le_total : Total str_le.
Proof. intros a b. apply str_leb_total. Qed.
#[global] Instance str_le_trans : Transitive str_le.
Proof. intros a b c. apply str_leb_trans. Qed.

Lemma sorted_elem_of (l : list str) (x : str) : x ∈ sorted l ↔ x ∈ l.
Proof. unfold sorted. by rewrite merge_sort_Permutation. Qed.

Lemma sorted_StronglySorted (l : list str) : StronglySorted str_le (sorted l).
Proof. apply StronglySorted_merge_sort; apply _. Qed.

(** ** The selection *)

Lemma evaluate_holds (env : _Key → str) (m : Marker.t) :
  Marker.evaluate m env = true ↔ marker_holds env m.
Proof.
  unfold Marker.evaluate, marker_holds. rewrite forallb_forall, Forall_forall.
  split; intros H kv Hin.
  - apply list_elem_of_In, H in Hin. unfold str_eqb in Hin.
    by apply bool_decide_eq_true in Hin.
  - apply bool_decide_eq_true, H, list_elem_of_In, Hin.
Qed.

Lemma selected_applies (env : _Key → str) (f : File.t) :
  selected env f = true ↔ applies env f.
Proof.
  unfold selected, applies. rewrite orb_true_iff, existsb_exists, Exists_exists.
  split.
  - intros [Hnil | (m & Hin & Hm)].
    + left. destruct (File.markers f); [done | discriminate].
    + right. exists m. by rewrite list_elem_of_In, <- evaluate_holds.
  - intros [-> | (m & Hin & Hm)]; [by left |].
    right. exists m. by rewrite <- list_elem_of_In, evaluate_holds.
Qed.

Lemma selection_filter (env : _Key → str) (src : list File.t) :
  List.filter (selected env) src = filter (applies env) src.
Proof.
  induction src as [|f src IH]; [done |].
  simpl. rewrite filter_cons, IH.
  destruct (selected env f) eqn:Hsel; case_decide as Hap; try done.
  - by apply selected_applies in Hsel.
  - apply selected_applies in Hap. congruence.
Qed.

Lemma selection_idem (env : _Key → str) (src : list File.t) :
  List.filter (selected env) (List.filter (selected env) src)
  = List.filter (selected env) src.
Proof.
  induction src as [|f src IH]; [done |].
  simpl. destruct (selected env f) eqn:Hsel; [| done].
  simpl. by rewrite Hsel, IH.
Qed.

(** ** The two loops of the filter *)

Lemma scan_ok (section : str) (ret : list File.t) (seen sg : gset str) :
  NoDup (paths_of ret) → NoDup (groups_of ret) →
  (∀ p, p ∈ paths_of ret → p ∉ seen) → (∀ g, g ∈ groups_of ret → g ∉ sg) →
  scan section ret seen sg = Ok (sg ∪ list_to_set (groups_of ret)).
Proof.
  revert seen sg. induction ret as [|f ret IH]; intros seen sg Hp Hg Hps Hgs.
  - simpl. f_equal. set_solver.
  - simpl. unfold paths_of, groups_of in *. simpl in *.
    apply NoDup_cons in Hp as [Hp1 Hp2].
    rewrite bool_decide_eq_false_2 by (apply Hps; set_solver).
    destruct (File.group f) as [g|] eqn:Hgrp; simpl in *.
    + apply NoDup_cons in Hg as [Hg1 Hg2].
      rewrite bool_decide_eq_false_2 by (apply Hgs; set_solver).
      rewrite IH; try done.
      * f_equal. set_solver.
      * intros p Hin. specialize (Hps p). set_solver.
      * intros g' Hin. specialize (Hgs g'). set_solver.
    + rewrite IH; try done.
      intros p Hin. specialize (Hps p). set_solver.
Qed.

Lemma scan_ok_inv (section : str) (ret : list File.t) (seen sg sg' : gset str) :
  scan section ret seen sg = Ok sg' →
  NoDup (paths_of ret) ∧ NoDup (groups_of ret) ∧
  (∀ p, p ∈ paths_of ret → p ∉ seen) ∧ (∀ g, g ∈ groups_of ret → g ∉ sg) ∧
  sg' = sg ∪ list_to_set (groups_of ret).
Proof.
  revert seen sg. induction ret as [|f ret IH]; intros seen sg Hscan.
  - simpl in Hscan. injection Hscan as <-. unfold paths_of, groups_of. simpl.
    repeat split; try constructor; set_solver.
  - simpl in Hscan. case_bool_decide as Hseen; [discriminate |].
    unfold paths_of, groups_of in *. simpl.
    destruct (File.group f) as [g|] eqn:Hgrp; simpl.
    + case_bool_decide as Hsg; [discriminate |].
      apply IH in Hscan as (Hp & Hg & Hps & Hgs & ->).
      repeat split.
      * apply NoDup_cons. split; [| done]. intros Hin. apply Hps in Hin. set_solver.
      * apply NoDup_cons. split; [| done]. intros Hin. apply Hgs in Hin. set_solver.
      * intros p [-> | Hin]%elem_of_cons; [done |]. apply Hps in Hin. set_solver.
      * intros g' [-> | Hin]%elem_of_cons; [done |]. apply Hgs in Hin. set_solver.
      * set_solver.
    + apply IH in Hscan as (Hp & Hg & Hps & Hgs & ->).
      repeat split; try done.
      * apply NoDup_cons. split; [| done]. intros Hin. apply Hps in Hin. set_solver.
      * intros p [-> | Hin]%elem_of_cons; [done |]. apply Hps in Hin. set_solver.
Qed.

(** The first loop fails at the first descriptor whose path, or else whose
    group, an earlier one carried; the path is looked at first. *)
Lemma scan_raise (section : str) (ret : list File.t) (seen sg : gset str)
    (e : exn) :
  scan section ret seen sg = Raise e →
  ∃ pre f post, ret = pre ++ f :: post ∧
    is_ok (scan section pre seen sg) = true ∧
    ((File.path f ∈ seen ∪ list_to_set (paths_of pre) ∧
      e = ValueError (section ++ lit ": " ++ File.path f ++
                      lit " matched multiple times!"))
     ∨ ((File.path f ∉ seen ∪ list_to_set (paths_of pre)) ∧
        ∃ g, File.group f = Some g ∧ g ∈ sg ∪ list_to_set (groups_of pre) ∧
          e = ValueError (section ++ lit ": group=" ++ g ++
                          lit " matched multiple times!"))).
Proof.
  revert seen sg. induction ret as [|f ret IH]; intros seen sg Hscan;
    [discriminate |].
  simpl in Hscan. case_bool_decide as Hseen.
  { injection Hscan as <-. exists [], f, ret. repeat split.
    left. split; [set_solver | done]. }
  destruct (File.group f) as [g|] eqn:Hgrp.
  - case_bool_decide as Hsg.
    { injection Hscan as <-. exists [], f, ret. repeat split.
      right. split; [set_solver |]. exists g.
      split; [done | split; [set_solver | done]]. }
    apply IH in Hscan as (pre & f' & post & -> & Hpre & Hcase).
    exists (f :: pre), f', post. split; [done |].
    assert (scan section (f :: pre) seen sg
            = scan section pre (seen ∪ {[File.path f]}) (sg ∪ {[g]})) as ->.
    { simpl. rewrite bool_decide_eq_false_2 by done. rewrite Hgrp.
      by rewrite bool_decide_eq_false_2 by done. }
    split; [done |]. unfold paths_of, groups_of in *. simpl. rewrite Hgrp. simpl.
    destruct Hcase as [[Hin ->] | [Hnin (g' & Hg' & Hin & ->)]].
    + left. split; [set_solver | done].
    + right. split; [set_solver |]. exists g'.
      split; [done | split; [set_solver | done]].
  - apply IH in Hscan as (pre & f' & post & -> & Hpre & Hcase).
    exists (f :: pre), f', post. split; [done |].
    assert (scan section (f :: pre) seen sg
            = scan section pre (seen ∪ {[File.path f]}) sg) as ->.
    { simpl. rewrite bool_decide_eq_false_2 by done. by rewrite Hgrp. }
    split; [done |]. unfold paths_of, groups_of in *. simpl. rewrite Hgrp.
    destruct Hcase as [[Hin ->] | [Hnin (g' & Hg' & Hin & ->)]].
    + left. split; [set_solver | done].
    + right. split; [set_solver |]. exists g'.
      split; [done | split; [set_solver | done]].
Qed.

Lemma check_groups_ok `{Runtime} (gs : list str) (sg : gset str) :
  (∀ g, g ∈ gs → g ∈ sg) → check_groups gs sg = Ok ().
Proof.
  induction gs as [|g gs IH]; intros Hall; [done |].
  simpl. rewrite bool_decide_eq_true_2 by (apply Hall; set_solver).
  simpl. apply IH. intros g' Hin. apply Hall. set_solver.
Qed.

Lemma check_groups_ok_inv `{Runtime} (gs : list str) (sg : gset str) :
  check_groups gs sg = Ok () → ∀ g, g ∈ gs → g ∈ sg.
Proof.
  induction gs as [|g gs IH]; intros Hok g' Hin.
  - apply elem_of_nil in Hin as [].
  - simpl in Hok. case_bool_decide as Hg; simpl in Hok; [| discriminate].
    apply elem_of_cons in Hin as [-> | Hin]; auto.
Qed.

(** The second loop fails at the first name of its list that was not seen. *)
Lemma check_groups_raise `{Runtime} (gs : list str) (sg : gset str) (g : str) :
  g ∈ gs → g ∉ sg →
  ∃ pre g0 post, gs = pre ++ g0 :: post ∧ (∀ x, x ∈ pre → x ∈ sg) ∧ (g0 ∉ sg) ∧
    check_groups gs sg = Raise (ValueError (unsupported g0)).
Proof.
  induction gs as [|x gs IH]; intros Hin Hmiss.
  - apply elem_of_nil in Hin as [].
  - simpl. case_bool_decide as Hx; simpl.
    + apply elem_of_cons in Hin as [-> | Hin]; [done |].
      destruct (IH Hin Hmiss) as (pre & g0 & post & -> & Hpre & Hg0 & ->).
      exists (x :: pre), g0, post. repeat split; try done.
      intros y [-> | Hy]%elem_of_cons; auto.
    + exists [], x, gs. repeat split; try done.
      intros y Hy. apply elem_of_nil in Hy as [].
Qed.

Lemma str_le_refl (a : str) : str_le a a.
Proof. destruct (str_leb_total a a); done. Qed.

(** In a sorted list the first name that was not seen is the least one. *)
Lemma check_groups_least `{Runtime} (gs : list str) (sg : gset str) (g : str) :
  StronglySorted str_le gs → g ∈ gs → g ∉ sg →
  ∃ g0, g0 ∈ gs ∧ (g0 ∉ sg) ∧ (∀ g', g' ∈ gs → g' ∉ sg → str_le g0 g') ∧
    check_groups gs sg = Raise (ValueError (unsupported g0)).
Proof.
  intros Hsorted Hin Hmiss.
  destruct (check_groups_raise gs sg g Hin Hmiss)
    as (pre & g0 & post & -> & Hpre & Hg0 & Hraise).
  exists g0. repeat split; try done.
  - set_solver.
  - intros g' Hg' Hmiss'.
    apply StronglySorted_app_1_r, StronglySorted_cons in Hsorted as [Hpost _].
    rewrite Forall_forall in Hpost.
    apply elem_of_app in Hg' as [Hg' | Hg']; [by apply Hpre in Hg' |].
    apply elem_of_cons in Hg' as [-> | Hg']; [apply str_le_refl | auto].
Qed.

(** ** The filter *)

Lemma declared_groups (src : list File.t) (g : str) :
  g ∈ sorted (elements (list_to_set (groups_of src) : gset str))
  ↔ g ∈ groups_of src.
Proof. by rewrite sorted_elem_of, elem_of_elements, elem_of_list_to_set. Qed.

Lemma unsupported_text `{Runtime} (g : str) :
  unsupported g
  = lit "`" ++ g ++ lit "` is not supported on your platform" ++ [NL; NL] ++
    lit "(debug info):" ++ [NL] ++
    lit "- os_name=" ++ repr os_dot_name ++ [NL] ++
    lit "- sys_platform=" ++ repr sys_dot_platform ++ [NL] ++
    lit "- platform_machine=" ++ repr platform_dot_machine.
Proof. reflexivity. Qed.

Lemma filter_ok `{Runtime} (src : list File.t) (section : str) :
  NoDup (paths_of (List.filter (selected _default_env) src)) →
  NoDup (groups_of (List.filter (selected _default_env) src)) →
  (∀ g, g ∈ groups_of src →
        g ∈ groups_of (List.filter (selected _default_env) src)) →
  _filter src section = Ok (List.filter (selected _default_env) src).
Proof.
  intros Hp Hg Hall. unfold _filter.
  rewrite (scan_ok section _ ∅ ∅ Hp Hg) by set_solver. simpl.
  rewrite check_groups_ok; [done |].
  intros g Hin. apply declared_groups, Hall in Hin. set_solver.
Qed.

Lemma filter_ok_inv `{Runtime} (src : list File.t) (section : str)
    (ret : list File.t) :
  _filter src section = Ok ret →
  ret = List.filter (selected _default_env) src ∧
  NoDup (paths_of ret) ∧ NoDup (groups_of ret) ∧
  ∀ g, g ∈ groups_of src → g ∈ groups_of ret.
Proof.
  unfold _filter.
  destruct (scan section _ ∅ ∅) as [sg|e] eqn:Hscan; simpl; [| discriminate].
  destruct (check_groups _ sg) as [[]|e] eqn:Hcheck; simpl; [| discriminate].
  intros [= <-]. apply scan_ok_inv in Hscan as (Hp & Hg & _ & _ & ->).
  repeat split; try done.
  intros g Hin. apply declared_groups in Hin.
  apply (check_groups_ok_inv _ _ Hcheck) in Hin. set_solver.
Qed.

(** Without a repeated path or group among the selected descriptors, a
    group that none of them carries stops the filter, and the error names
    the least such group. *)
Lemma filter_unsupported `{Runtime} (src : list File.t) (section g : str) :
  NoDup (paths_of (List.filter (selected _default_env) src)) →
  NoDup (groups_of (List.filter (selected _default_env) src)) →
  g ∈ groups_of src →
  g ∉ groups_of (List.filter (selected _default_env) src) →
  ∃ g0, g0 ∈ groups_of src ∧
    (g0 ∉ groups_of (List.filter (selected _default_env) src)) ∧
    (∀ g', g' ∈ groups_of src →
           g' ∉ groups_of (List.filter (selected _default_env) src) →
           str_le g0 g') ∧
    _filter src section = Raise (ValueError (unsupported g0)).
Proof.
  intros Hp Hg Hin Hmiss. unfold _filter.
  rewrite (scan_ok section _ ∅ ∅ Hp Hg) by set_solver. simpl.
  set (ret := List.filter (selected _default_env) src) in *.
  set (sg := (∅ ∪ list_to_set (groups_of ret) : gset str)).
  destruct (check_groups_least
              (sorted (elements (list_to_set (groups_of src) : gset str)))
              sg g) as (g0 & Hg0 & Hg0miss & Hleast & Hraise);
    [| | | unfold groups_of in Hraise; rewrite Hraise].
  - apply sorted_StronglySorted.
  - by apply declared_groups.
  - subst sg. set_solver.
  - exists g0. repeat split.
    + by apply declared_groups.
    + subst sg. set_solver.
    + intros g' Hg' Hmiss'. apply Hleast; [by apply declared_groups |].
      subst sg. set_solver.
Qed.

(** With a repeated path or group among the selected descriptors the filter
    stops at the first descriptor that repeats one, the path looked at
    before the group. *)
Lemma filter_conflict `{Runtime} (src : list File.t) (section : str) :
  ¬ (NoDup (paths_of (List.filter (selected _default_env) src)) ∧
     NoDup (groups_of (List.filter (selected _default_env) src))) →
  ∃ pre f post,
    List.filter (selected _default_env) src = pre ++ f :: post ∧
    NoDup (paths_of pre) ∧ NoDup (groups_of pre) ∧
    ((File.path f ∈ paths_of pre ∧
      _filter src section
      = Raise (ValueError (section ++ lit ": " ++ File.path f ++
                           lit " matched multiple times!")))
     ∨ ((File.path f ∉ paths_of pre) ∧
        ∃ g, File.group f = Some g ∧ g ∈ groups_of pre ∧
          _filter src section
          = Raise (ValueError (section ++ lit ": group=" ++ g ++
                               lit " matched multiple times!")))).
Proof.
  intros Hdup. unfold _filter.
  destruct (scan section _ ∅ ∅) as [sg|e] eqn:Hscan.
  { apply scan_ok_inv in Hscan as (Hp & Hg & _). by destruct Hdup. }
  apply scan_raise in Hscan as (pre & f & post & Hret & Hpre & Hcase).
  exists pre, f, post. split; [done |].
  destruct (scan section pre ∅ ∅) as [sg|] eqn:Hscan; [| discriminate].
  apply scan_ok_inv in Hscan as (Hp & Hg & _).
  repeat split; try done. simpl.
  destruct Hcase as [[Hin ->] | [Hnin (g & Hgrp & Hin & ->)]].
  - left. split; [set_solver | done].
  - right. split; [set_solver |]. exists g.
    split; [done | split; [set_solver | done]].
Qed.

Lemma selected_single (env : _Key → str) (f : File.t) (m : Marker.t)
    (key : _Key) (v : str) :
  File.markers f = [m] → Marker.parts m = [(key, v)] →
  selected env f = bool_decide (env key = v).
Proof.
  intros Hm Hp. unfold selected, Marker.evaluate. rewrite Hm. simpl.
  rewrite Hp. simpl. unfold str_eqb. by rewrite andb_true_r, orb_false_r.
Qed.

Lemma selected_unconditional (env : _Key → str) (f : File.t) :
  File.markers f = [] → selected env f = true.
Proof. intros Hm. unfold selected. by rewrite Hm. Qed.

(** Two descriptors of one group, each under one test of the same key. *)
Lemma filter_alternatives `{Runtime} (section : str) (f1 f2 : File.t)
    (m1 m2 : Marker.t) (key : _Key) (v1 v2 g : str) :
  File.group f1 = Some g → File.group f2 = Some g →
  File.markers f1 = [m1] → File.markers f2 = [m2] →
  Marker.parts m1 = [(key, v1)] → Marker.parts m2 = [(key, v2)] → v1 ≠ v2 →
  (_default_env key = v1 → _filter [f1; f2] section = Ok [f1]) ∧
  (_default_env key = v2 → _filter [f1; f2] section = Ok [f2]) ∧
  (_default_env key ≠ v1 → _default_env key ≠ v2 →
   _filter [f1; f2] section = Raise (ValueError (unsupported g))).
Proof.
  intros Hg1 Hg2 Hm1 Hm2 Hp1 Hp2 Hne.
  pose proof (selected_single _default_env f1 m1 key v1 Hm1 Hp1) as Hs1.
  pose proof (selected_single _default_env f2 m2 key v2 Hm2 Hp2) as Hs2.
  assert (∀ x, x ∈ groups_of [f1; f2] → x = g) as Hgroups.
  { unfold groups_of. simpl. rewrite Hg1, Hg2. simpl. set_solver. }
  split; [| split].
  - intros Henv.
    assert (List.filter (selected _default_env) [f1; f2] = [f1]) as Hsel.
    { simpl. rewrite Hs1, Hs2, bool_decide_eq_true_2 by done.
      by rewrite bool_decide_eq_false_2 by congruence. }
    pose proof (filter_ok [f1; f2] section) as Hok. rewrite Hsel in Hok.
    apply Hok.
    + apply NoDup_singleton.
    + unfold groups_of. simpl. rewrite Hg1. apply NoDup_singleton.
    + intros x Hx. apply Hgroups in Hx as ->.
      unfold groups_of. simpl. rewrite Hg1. set_solver.
  - intros Henv.
    assert (List.filter (selected _default_env) [f1; f2] = [f2]) as Hsel.
    { simpl. rewrite Hs1, Hs2, bool_decide_eq_false_2 by congruence.
      by rewrite bool_decide_eq_true_2 by done. }
    pose proof (filter_ok [f1; f2] section) as Hok. rewrite Hsel in Hok.
    apply Hok.
    + apply NoDup_singleton.
    + unfold groups_of. simpl. rewrite Hg2. apply NoDup_singleton.
    + intros x Hx. apply Hgroups in Hx as ->.
      unfold groups_of. simpl. rewrite Hg2. set_solver.
  - intros Hn1 Hn2.
    assert (List.filter (selected _default_env) [f1; f2] = []) as Hsel.
    { simpl. by rewrite Hs1, Hs2, !bool_decide_eq_false_2 by done. }
    pose proof (filter_unsupported [f1; f2] section g) as Hbad.
    rewrite Hsel in Hbad.
    destruct Hbad as (g0 & Hg0 & _ & _ & ->).
    + constructor.
    + constructor.
    + unfold groups_of. simpl. rewrite Hg1. set_solver.
    + unfold groups_of. simpl. set_solver.
    + by apply Hgroups in Hg0 as ->.
Qed.

(** Two descriptors of one path, without group and markers. *)
Lemma filter_same_path `{Runtime} (section : str) (f1 f2 : File.t) :
  File.path f1 = File.path f2 →
  File.group f1 = None → File.group f2 = None →
  File.markers f1 = [] → File.markers f2 = [] →
  _filter [f1; f2] section
  = Raise (ValueError (section ++ lit ": " ++ File.path f1 ++
                       lit " matched multiple times!")).
Proof.
  intros Hpath Hg1 Hg2 Hm1 Hm2. unfold _filter. simpl.
  rewrite !selected_unconditional by done. simpl.
  rewrite bool_decide_eq_false_2 by set_solver. rewrite Hg1.
  rewrite bool_decide_eq_true_2 by (rewrite Hpath; set_solver).
  simpl. by rewrite Hpath.
Qed.

(** ** The specification of the platform filter *)

(** Every failure of the filter is a [ValueError]. *)
Lemma check_groups_raise_inv `{Runtime} (gs : list str) (sg : gset str)
    (e : exn) :
  check_groups gs sg = Raise e → ∃ msg, e = ValueError msg.
Proof.
  induction gs as [|g gs IH]; simpl; [discriminate |].
  case_bool_decide; simpl; [apply IH |]. intros [= <-]. by eexists.
Qed.

Lemma filter_raise_inv `{Runtime} (src : list File.t) (section : str)
    (e : exn) :
  _filter src section = Raise e → ∃ msg, e = ValueError msg.
Proof.
  unfold _filter.
  destruct (scan section _ ∅ ∅) as [sg|e'] eqn:Hscan; simpl.
  - destruct (check_groups _ sg) as [[]|e'] eqn:Hcheck; simpl; [discriminate |].
    intros [= <-]. by apply check_groups_raise_inv in Hcheck.
  - intros [= <-].
    apply scan_raise in Hscan
      as (pre & f & post & _ & _ & [[_ ->] | [_ (g & _ & _ & ->)]]);
      by eexists.
Qed.

(** The descriptors that apply under an environment, characterised by
    their members. *)
Lemma applies_members (env : _Key → str) (src : list File.t) (f : File.t) :
  f ∈ filter (applies env) src ↔
  f ∈ src ∧
  (File.markers f = [] ∨
   ∃ m, m ∈ File.markers f ∧ ∀ k v, (k, v) ∈ Marker.parts m → env k = v).
Proof.
  rewrite list_elem_of_filter. unfold applies, marker_holds.
  rewrite Exists_exists. setoid_rewrite Forall_forall.
  split.
  - intros [[Hnil | (m & Hin & Hm)] Hsrc]; (split; [done |]); [by left |].
    right. exists m. split; [done |]. intros k v Hkv. by apply (Hm (k, v)).
  - intros [Hsrc [Hnil | (m & Hin & Hm)]]; (split; [| done]); [by left |].
    right. exists m. split; [done |]. intros [k v] Hkv. by apply Hm.
Qed.

(** ** The specification of the platform filter *)

(** C1: for every input sequence and every host, the selection of the
    platform filter is the sequence of the descriptors of the input that
    apply under the snapshot (their predicate list is empty or one of their
    predicates is true), each as often as the input has it and in the order
    of the input.  The filter returns a sequence exactly when this
    selection has no path and no group twice and holds every group of the
    input, and what it returns is then the selection; in every other case
    it raises a [ValueError]. *)
Theorem C1_filter_selects `{Runtime} (src : list File.t) (section : str) :
  let sel := filter (applies _default_env) src in
  sel `sublist_of` src ∧
  (∀ f, f ∈ sel ↔
        f ∈ src ∧
        (File.markers f = [] ∨
         ∃ m, m ∈ File.markers f ∧
              ∀ k v, (k, v) ∈ Marker.parts m → _default_env k = v)) ∧
  (∀ ret, _filter src section = Ok ret ↔
          ret = sel ∧ NoDup (paths_of sel) ∧ NoDup (groups_of sel) ∧
          ∀ g, g ∈ groups_of src → g ∈ groups_of sel) ∧
  (∀ e, _filter src section = Raise e → ∃ msg, e = ValueError msg).
Proof.
  intros sel. subst sel. split; [apply sublist_filter |].
  split; [apply applies_members |]. split; [| apply filter_raise_inv].
  intros ret. rewrite <- selection_filter. split.
  - intros Hok. by apply filter_ok_inv in Hok as (-> & Hp & Hg & Hall).
  - intros (-> & Hp & Hg & Hall). by apply filter_ok.
Qed.

Lemma C1_filter_selects_witness :
  let f1 := plain "f1" "deadbeef" in
  let f2 := plain "f2" "cafecafe" in
  let f3_exe := grouped "f3.exe" "baadbaad" "f3-binary"
                  [marker_of sys_platform "sys_platform" "cygwin";
                   marker_of sys_platform "sys_platform" "win32"] in
  let f3 := grouped "f3" "daaddaad" "f3-binary"
              [marker_of sys_platform "sys_platform" "linux"] in
  @_filter linux_host [f1; f2; f3_exe; f3] (lit "example") = Ok [f1; f2; f3]
  ∧ [f1; f2; f3] = filter (applies (@_default_env linux_host)) [f1; f2; f3_exe; f3]
  ∧ [f1; f2; f3] `sublist_of` [f1; f2; f3_exe; f3].
Proof.
  intros f1 f2 f3_exe f3.
  destruct (C1_filter_selects (H := linux_host) [f1; f2; f3_exe; f3]
              (lit "example")) as (Hsub & _ & Hret & _).
  assert (filter (applies (@_default_env linux_host)) [f1; f2; f3_exe; f3]
          = [f1; f2; f3]) as Hsel.
  { rewrite <- selection_filter. vm_compute. reflexivity. }
  rewrite Hsel in Hsub, Hret.
  split; [| split; [by rewrite Hsel | exact Hsub]].
  apply Hret. split; [reflexivity |].
  split; [apply (bool_decide_unpack _); vm_compute; exact I |].
  split; [apply (bool_decide_unpack _); vm_compute; exact I |].
  intros g Hg. unfold groups_of in *. simpl in Hg |- *.
  apply elem_of_cons in Hg as [-> | Hg]; [apply list_elem_of_here | exact Hg].
Defined.

(** C9: a sequence the filter returned is returned unchanged when it is
    filtered again on the same host. *)
Theorem C9_filter_idempotent `{Runtime} (src : list File.t) (section : str)
    (ret : list File.t) :
  _filter src section = Ok ret → _filter ret section = Ok ret.
Proof.
  intros Hok. apply filter_ok_inv in Hok as (Hret & Hp & Hg & _).
  pose proof (filter_ok ret section) as Hagain.
  assert (List.filter (selected _default_env) ret = ret) as Hsame.
  { rewrite Hret. apply selection_idem. }
  rewrite Hsame in Hagain. by apply Hagain.
Qed.

Lemma C9_filter_idempotent_witness :
  let f1 := plain "f1" "deadbeef" in
  let f3_exe := grouped "f3.exe" "baadbaad" "f3-binary"
                  [marker_of sys_platform "sys_platform" "win32"] in
  let f3 := grouped "f3" "daaddaad" "f3-binary"
              [marker_of sys_platform "sys_platform" "linux"] in
  @_filter linux_host [f1; f3] (lit "example") = Ok [f1; f3].
Proof.
  intros f1 f3_exe f3.
  apply (C9_filter_idempotent (H := linux_host) [f1; f3_exe; f3]).
  vm_compute. reflexivity.
Defined.

(** C2, as the code has it: when no path and no group is repeated among
    the selected descriptors (the filter looks for those first) and some
    group of the input is on none of them, the filter fails with the
    platform error; the error names the least such group in sorted order
    and gives the three platform values.  Of two descriptors of one group,
    each under one test of the same key against different values, the
    filter returns the one whose value the snapshot has, and fails with
    the platform error naming the group when it has neither. *)
Theorem C2_unsupported_group `{Runtime} (section : str) :
  let message (g : str) :=
    lit "`" ++ g ++ lit "` is not supported on your platform" ++ [NL; NL] ++
    lit "(debug info):" ++ [NL] ++
    lit "- os_name=" ++ repr os_dot_name ++ [NL] ++
    lit "- sys_platform=" ++ repr sys_dot_platform ++ [NL] ++
    lit "- platform_machine=" ++ repr platform_dot_machine in
  (∀ (src : list File.t) (g : str),
     NoDup (paths_of (List.filter (selected _default_env) src)) →
     NoDup (groups_of (List.filter (selected _default_env) src)) →
     g ∈ groups_of src →
     g ∉ groups_of (List.filter (selected _default_env) src) →
     ∃ g0, g0 ∈ groups_of src ∧
       (g0 ∉ groups_of (List.filter (selected _default_env) src)) ∧
       (∀ g', g' ∈ groups_of src →
              g' ∉ groups_of (List.filter (selected _default_env) src) →
              str_le g0 g') ∧
       _filter src section = Raise (ValueError (message g0)))
  ∧
  (∀ (f1 f2 : File.t) (m1 m2 : Marker.t) (key : _Key) (v1 v2 g : str),
     File.group f1 = Some g → File.group f2 = Some g →
     File.markers f1 = [m1] → File.markers f2 = [m2] →
     Marker.parts m1 = [(key, v1)] → Marker.parts m2 = [(key, v2)] →
     v1 ≠ v2 →
     (_default_env key = v1 → _filter [f1; f2] section = Ok [f1]) ∧
     (_default_env key = v2 → _filter [f1; f2] section = Ok [f2]) ∧
     (_default_env key ≠ v1 → _default_env key ≠ v2 →
      _filter [f1; f2] section = Raise (ValueError (message g)))).
Proof.
  intros message. split.
  - intros src g. apply filter_unsupported.
  - intros f1 f2 m1 m2 key v1 v2 g. apply filter_alternatives.
Qed.

Lemma C2_unsupported_group_witness :
  let never_exe := marker_of _internal "_internal" "never.exe" in
  let never := marker_of _internal "_internal" "never" in
  let win := grouped "f3.exe" "baadbaad" "f3-binary"
               [marker_of sys_platform "sys_platform" "win32"] in
  let lin := grouped "f3" "daaddaad" "f3-binary"
               [marker_of sys_platform "sys_platform" "linux"] in
  let mac := grouped "f3" "daaddaad" "f3-binary"
               [marker_of sys_platform "sys_platform" "darwin"] in
  (∃ g0,
     @_filter linux_host
       [grouped "f1.exe" "baadbaad" "f1-binary" [never_exe];
        grouped "f1" "deadbeef" "f1-binary" [never]] (lit "example")
     = Raise (ValueError (@unsupported linux_host g0)))
  ∧ @_filter linux_host [win; lin] (lit "example") = Ok [lin]
  ∧ @_filter linux_host [lin; win] (lit "example") = Ok [lin]
  ∧ @_filter linux_host [win; mac] (lit "example")
    = Raise (ValueError (@unsupported linux_host (lit "f3-binary"))).
Proof.
  intros never_exe never win lin mac.
  destruct (C2_unsupported_group (H := linux_host) (lit "example"))
    as [Hgeneral Htwo].
  split; [| split; [| split]].
  - destruct (Hgeneral
                [grouped "f1.exe" "baadbaad" "f1-binary" [never_exe];
                 grouped "f1" "deadbeef" "f1-binary" [never]]
                (lit "f1-binary")) as (g0 & _ & _ & _ & Hraise).
    + vm_compute. constructor.
    + vm_compute. constructor.
    + vm_compute. left.
    + vm_compute. apply not_elem_of_nil.
    + exists g0. exact Hraise.
  - refine (proj1 (proj2 (Htwo win lin _ _ sys_platform (lit "win32")
                            (lit "linux") (lit "f3-binary")
                            eq_refl eq_refl eq_refl eq_refl eq_refl eq_refl
                            _)) eq_refl).
    vm_compute. discriminate.
  - refine (proj1 (Htwo lin win _ _ sys_platform (lit "linux")
                     (lit "win32") (lit "f3-binary")
                     eq_refl eq_refl eq_refl eq_refl eq_refl eq_refl
                     _) eq_refl).
    vm_compute. discriminate.
  - refine (proj2 (proj2 (Htwo win mac _ _ sys_platform (lit "win32")
                            (lit "darwin") (lit "f3-binary")
                            eq_refl eq_refl eq_refl eq_refl eq_refl eq_refl
                            _)) _ _); vm_compute; discriminate.
Defined.

(** C2 as it is written fails twice: a repeated path is reported before a
    group without a match, and of two groups without a match only the
    first in sorted order is named. *)
Lemma C2_counterexample :
  let never := marker_of _internal "_internal" "never" in
  let first := [plain "a" "deadbeef"; plain "a" "deadbeef";
                grouped "b" "baadbaad" "g" [never]] in
  let second := [grouped "x" "baadbaad" "gb" [never];
                 grouped "y" "daaddaad" "ga" [never]] in
  (lit "g" ∈ groups_of first ∧
   (lit "g" ∉ groups_of (List.filter (selected (@_default_env linux_host)) first)) ∧
   @_filter linux_host first (lit "example")
   = Raise (ValueError (lit "example: a matched multiple times!")))
  ∧
  (lit "gb" ∈ groups_of second ∧
   (lit "gb" ∉ groups_of (List.filter (selected (@_default_env linux_host)) second)) ∧
   @_filter linux_host second (lit "example")
   = Raise (ValueError (@unsupported linux_host (lit "ga"))) ∧
   @_filter linux_host second (lit "example")
   ≠ Raise (ValueError (@unsupported linux_host (lit "gb")))).
Proof.
  intros never first second. split; [split; [| split] | split; [| split; [| split]]].
  - vm_compute. apply list_elem_of_further, list_elem_of_here || left.
  - vm_compute. apply not_elem_of_nil.
  - vm_compute. reflexivity.
  - vm_compute. left.
  - vm_compute. apply not_elem_of_nil.
  - vm_compute. reflexivity.
  - vm_compute. discriminate.
Qed.

(** C3, as the code has it: when a path or a group is repeated among the
    selected descriptors, the filter fails at the first of them, in order,
    that repeats the path or else the group of an earlier one: with the
    path error naming its path when the path is repeated, and otherwise
    with the group error naming its group.  Two descriptors of one path,
    without group and markers, fail with the path error whatever their
    other fields. *)
Theorem C3_conflict_errors `{Runtime} (section : str) :
  (∀ (src : list File.t),
     ¬ NoDup (paths_of (List.filter (selected _default_env) src)) ∨
     ¬ NoDup (groups_of (List.filter (selected _default_env) src)) →
     ∃ pre f post,
       List.filter (selected _default_env) src = pre ++ f :: post ∧
       NoDup (paths_of pre) ∧ NoDup (groups_of pre) ∧
       ((File.path f ∈ paths_of pre ∧
         _filter src section
         = Raise (ValueError (section ++ lit ": " ++ File.path f ++
                              lit " matched multiple times!")))
        ∨ ((File.path f ∉ paths_of pre) ∧
           ∃ g, File.group f = Some g ∧ g ∈ groups_of pre ∧
             _filter src section
             = Raise (ValueError (section ++ lit ": group=" ++ g ++
                                  lit " matched multiple times!")))))
  ∧
  (∀ (f1 f2 : File.t),
     File.path f1 = File.path f2 →
     File.group f1 = None → File.group f2 = None →
     File.markers f1 = [] → File.markers f2 = [] →
     _filter [f1; f2] section
     = Raise (ValueError (section ++ lit ": " ++ File.path f1 ++
                          lit " matched multiple times!"))).
Proof.
  split.
  - intros src Hdup. apply filter_conflict. intros [Hp Hg]. by destruct Hdup.
  - intros f1 f2. apply filter_same_path.
Qed.

Lemma C3_conflict_errors_witness :
  let hello := marker_of _internal "_internal" "hellohello" in
  let src := [grouped "f1.exe" "baadbaad" "f1-binary" [hello];
              grouped "f1" "deadbeef" "f1-binary" [hello]] in
  (∃ pre f post,
     List.filter (selected (@_default_env linux_host)) src = pre ++ f :: post ∧
     (@_filter linux_host src (lit "example")
      = Raise (ValueError (lit "example" ++ lit ": " ++ File.path f ++
                           lit " matched multiple times!"))
      ∨ ∃ g, File.group f = Some g ∧
          @_filter linux_host src (lit "example")
          = Raise (ValueError (lit "example" ++ lit ": group=" ++ g ++
                               lit " matched multiple times!"))))
  ∧ @_filter linux_host [plain "f1" "deadbeef"; plain "f1" "cafecafe"]
      (lit "example")
    = Raise (ValueError (lit "example: f1 matched multiple times!")).
Proof.
  intros hello src.
  destruct (C3_conflict_errors (H := linux_host) (lit "example"))
    as [Hgeneral Htwo].
  split.
  - destruct (Hgeneral src) as (pre & f & post & Hsel & _ & _ & Hcase).
    + right. vm_compute. intros [Hnin _]%NoDup_cons. apply Hnin. left.
    + exists pre, f, post. split; [exact Hsel |].
      destruct Hcase as [[_ Hraise] | [_ (g & Hg & _ & Hraise)]].
      * left. exact Hraise.
      * right. exists g. split; [exact Hg | exact Hraise].
  - exact (Htwo (plain "f1" "deadbeef") (plain "f1" "cafecafe")
             eq_refl eq_refl eq_refl eq_refl eq_refl).
Defined.

(** C3 as it is written fails both ways: two selected descriptors of one
    path and one group stop the filter with the path error, not the group
    error, and a group repeated before a path is repeated stops it with the
    group error, not the path error. *)
Lemma C3_counterexample :
  let hello := marker_of _internal "_internal" "hellohello" in
  let first := [grouped "f1" "deadbeef" "g" [hello];
                grouped "f1" "deadbeef" "g" [hello]] in
  let second := [grouped "a" "deadbeef" "g" [hello];
                 grouped "b" "baadbaad" "g" [hello];
                 grouped "a" "daaddaad" "h" [hello]] in
  (groups_of (List.filter (selected (@_default_env linux_host)) first)
   = [lit "g"; lit "g"] ∧
   @_filter linux_host first (lit "example")
   = Raise (ValueError (lit "example: f1 matched multiple times!")) ∧
   @_filter linux_host first (lit "example")
   ≠ Raise (ValueError (lit "example: group=g matched multiple times!")))
  ∧
  (paths_of (List.filter (selected (@_default_env linux_host)) second)
   = [lit "a"; lit "b"; lit "a"] ∧
   @_filter linux_host second (lit "example")
   = Raise (ValueError (lit "example: group=g matched multiple times!")) ∧
   @_filter linux_host second (lit "example")
   ≠ Raise (ValueError (lit "example: a matched multiple times!"))).
Proof.
  intros hello first second. repeat split; vm_compute; discriminate || reflexivity.
Qed.

(** ** The specification of the marker parser *)

(** C8: a text that holds [" or "] anywhere is refused with the message on
    repeating [marker =], whatever stands before and after it. *)
Theorem C8_or_unsupported (pre post : str) :
  Marker.parse (pre ++ lit " or " ++ post)
  = Raise (NotImplementedError
      (lit "Marker only supports `and` -- maybe repeat `marker =`?")).
Proof. apply parse_or. Qed.

(** C5: the clause of the three tokens [os_name], [==] and one double
    quote character is accepted, with the empty value. *)
Theorem C5_lone_quote_accepted :
  Marker.parse (lit "os_name == " ++ [DQUOTE])
  = Ok (Marker.mk (lit "os_name == " ++ [DQUOTE]) [(os_name, lit "")]).
Proof. vm_compute. reflexivity. Qed.

(** C6, as the code has it: in a text without [" or "], a clause of three
    tokens whose key is none of the four names of [_Key], [_internal]
    among them, is refused with the message that lists the three public
    keys, and so is the text; with [==] and a value between double quotes
    the clause is accepted exactly when its key is one of the four
    names. *)
Theorem C6_key_tokens (s chunk key op value : str) :
  contains (lit " or ") s = false →
  chunk ∈ split (lit " and ") s →
  split_ws chunk = [key; op; value] →
  let names := [lit "os_name"; lit "sys_platform"; lit "platform_machine";
                lit "_internal"] in
  let message (c : str) :=
    lit "invalid marker part: expected: `(os_name|sys_platform|platform_machine) == "
    ++ [DQUOTE] ++ lit "..." ++ [DQUOTE] ++ lit "` got: `" ++ c ++ lit "`" in
  (key ∉ names →
   Marker.parse_chunk chunk = Raise (ValueError (message chunk)) ∧
   ∃ bad, bad ∈ split (lit " and ") s ∧
     Marker.parse s = Raise (ValueError (message bad)))
  ∧
  (op = lit "==" →
   startswith value [DQUOTE] = true → endswith value [DQUOTE] = true →
   (is_ok (Marker.parse_chunk chunk) = true ↔ key ∈ names) ∧
   (split (lit " and ") s = [chunk] →
    (is_ok (Marker.parse s) = true ↔ key ∈ names))).
Proof.
  intros Hor Hin Htok names message.
  destruct (parse_chunk_tokens chunk key op value Htok)
    as [(Hkey & Hop & Hs & He & k & Hk & Hok) | [Hwhy Hbad]].
  - split; [intros Hnot; by destruct Hnot |].
    intros _ _ _. split.
    + rewrite Hok. done.
    + intros Hone. unfold Marker.parse. rewrite Hor, Hone. simpl.
      rewrite Hok. done.
  - split.
    + intros _. split; [exact Hbad |].
      apply (parse_raise_clause s chunk _ Hor Hin Hbad).
    + intros Hop Hs He.
      assert (key ∉ names) as Hkey.
      { destruct Hwhy as [Hkey | [Hne | [Hf | Hf]]]; [done | done | |];
          congruence. }
      split.
      * rewrite Hbad. simpl. split; [discriminate | done].
      * intros Hone. unfold Marker.parse. rewrite Hor, Hone. simpl.
        rewrite Hbad. simpl. split; [discriminate | done].
Qed.

Lemma C6_key_tokens_witness :
  Marker.parse (clause "extra" "wat")
  = Raise (ValueError (Marker.invalid (clause "extra" "wat")))
  ∧ is_ok (Marker.parse (clause "_internal" "hellohello")) = true.
Proof.
  split.
  - destruct (C6_key_tokens (clause "extra" "wat") (clause "extra" "wat")
                (lit "extra") (lit "==") ([DQUOTE] ++ lit "wat" ++ [DQUOTE]))
      as [Hrefuse _].
    + vm_compute. reflexivity.
    + vm_compute. left.
    + vm_compute. reflexivity.
    + destruct Hrefuse as [_ (bad & Hin & Hraise)].
      * apply (bool_decide_unpack _). vm_compute. exact I.
      * vm_compute in Hin. apply list_elem_of_singleton in Hin. subst bad.
        exact Hraise.
  - destruct (C6_key_tokens (clause "_internal" "hellohello")
                (clause "_internal" "hellohello")
                (lit "_internal") (lit "==")
                ([DQUOTE] ++ lit "hellohello" ++ [DQUOTE]))
      as [_ Haccept].
    + vm_compute. reflexivity.
    + vm_compute. left.
    + vm_compute. reflexivity.
    + destruct Haccept as [_ Hparse]; [reflexivity | reflexivity | reflexivity |].
      apply Hparse; [vm_compute; reflexivity |].
      vm_compute. do 3 right. left.
Defined.

(** C6 as it is written fails on the internal key: a clause on [_internal]
    is accepted. *)
Lemma C6_counterexample :
  Marker.parse (clause "_internal" "hellohello")
  = Ok (Marker.mk (clause "_internal" "hellohello")
          [(_internal, lit "hellohello")]).
Proof. vm_compute. reflexivity. Qed.

(** ** The manifest parser *)

(** The loop over the lines keeps what it has stored. *)
Lemma parse_lines_keeps (section path : str) (lines : list str)
    (values0 values : gmap str str) (markers0 markers : list Marker.t) :
  parse_lines section path lines values0 markers0 = Ok (values, markers) →
  ∀ k x, values0 !! k = Some x → values !! k = Some x.
Proof.
  revert values0 markers0.
  induction lines as [|line lines IH]; intros values0 markers0 Hok k x Hk.
  - simpl in Hok. by injection Hok as <- <-.
  - simpl in Hok.
    destruct (split1 EQUALS line) as [|k' [|v' [|? ?]]]; try discriminate.
    destruct (str_eqb (strip k') (lit "marker")).
    + destruct (Marker.parse (strip v')) as [m|e]; [| discriminate].
      simpl in Hok. by eapply IH.
    + case_bool_decide; [| discriminate].
      case_bool_decide as Hdup; [discriminate |].
      eapply IH; [exact Hok |].
      rewrite lookup_insert_ne; [done |].
      intros <-. apply Hdup. by exists x.
Qed.

(** A line on a key other than [marker] leaves its value under its key, and
    every marker line a marker. *)
Lemma parse_lines_values (section path : str) (lines : list str)
    (values0 values : gmap str str) (markers0 markers : list Marker.t)
    (line k v : str) :
  parse_lines section path lines values0 markers0 = Ok (values, markers) →
  line ∈ lines → split1 EQUALS line = [k; v] → strip k ≠ lit "marker" →
  values !! strip k = Some (strip v).
Proof.
  revert values0 markers0.
  induction lines as [|l lines IH]; intros values0 markers0 Hok Hin Hsplit Hkey.
  - apply elem_of_nil in Hin as [].
  - apply elem_of_cons in Hin as [<- | Hin].
    + simpl in Hok. rewrite Hsplit in Hok. unfold str_eqb in Hok.
      rewrite bool_decide_eq_false_2 in Hok by done.
      case_bool_decide; [| discriminate].
      case_bool_decide; [discriminate |].
      eapply parse_lines_keeps; [exact Hok |]. apply lookup_insert_eq.
    + simpl in Hok.
      destruct (split1 EQUALS l) as [|k' [|v' [|? ?]]]; try discriminate.
      destruct (str_eqb (strip k') (lit "marker")).
      * destruct (Marker.parse (strip v')) as [m|e]; [| discriminate].
        simpl in Hok. by eapply IH.
      * case_bool_decide; [| discriminate].
        case_bool_decide; [discriminate |]. by eapply IH.
Qed.

Lemma parse_lines_markers (section path : str) (lines : list str)
    (values0 values : gmap str str) (markers0 markers : list Marker.t) :
  parse_lines section path lines values0 markers0 = Ok (values, markers) →
  (∃ line k v, line ∈ lines ∧ split1 EQUALS line = [k; v] ∧
               strip k = lit "marker") →
  markers ≠ [].
Proof.
  revert values0 markers0.
  induction lines as [|l lines IH];
    intros values0 markers0 Hok (line & k & v & Hin & Hsplit & Hkey).
  - apply elem_of_nil in Hin as [].
  - assert (∀ ls vs0 ms0, ms0 ≠ [] →
              parse_lines section path ls vs0 ms0 = Ok (values, markers) →
              markers ≠ []) as Hgrow.
    { clear. induction ls as [|l ls IH]; intros vs0 ms0 Hne Hok.
      - simpl in Hok. by injection Hok as <- <-.
      - simpl in Hok.
        destruct (split1 EQUALS l) as [|k' [|v' [|? ?]]]; try discriminate.
        destruct (str_eqb (strip k') (lit "marker")).
        + destruct (Marker.parse (strip v')) as [m|e]; [| discriminate].
          simpl in Hok. eapply IH; [| exact Hok]. by destruct ms0.
        + case_bool_decide; [| discriminate].
          case_bool_decide; [discriminate |]. by eapply IH. }
    apply elem_of_cons in Hin as [<- | Hin].
    + simpl in Hok. rewrite Hsplit, Hkey in Hok. simpl in Hok.
      destruct (Marker.parse (strip v)) as [m|e]; [| discriminate].
      simpl in Hok. eapply Hgrow; [| exact Hok]. by destruct markers0.
    + simpl in Hok.
      destruct (split1 EQUALS l) as [|k' [|v' [|? ?]]]; try discriminate.
      destruct (str_eqb (strip k') (lit "marker")).
      * destruct (Marker.parse (strip v')) as [m|e]; [| discriminate].
        simpl in Hok. eapply IH; [exact Hok |]. eauto 10.
      * case_bool_decide; [| discriminate].
        case_bool_decide; [discriminate |]. eapply IH; [exact Hok |]. eauto 10.
Qed.

(** The names of the strategies. *)
Lemma _EXTRACT_names `{Runtime} (e : str) :
  e ∈ dom _EXTRACT ↔ e ∈ [lit "noop"; lit "tar"; lit "zip"].
Proof.
  unfold _EXTRACT. rewrite !dom_insert_L, dom_empty_L.
  rewrite !elem_of_union, !elem_of_singleton, !elem_of_cons, elem_of_nil.
  rewrite elem_of_empty. tauto.
Qed.

Lemma _EXTRACT_listed `{Runtime} :
  join (lit ", ") (sorted (elements (dom _EXTRACT ∖ {[lit "noop"]})))
  = lit "tar, zip".
Proof. vm_compute. reflexivity. Qed.

(** What the checks on a section let through. *)
Lemma build_file_ok_inv `{Runtime} (section path : str)
    (values : gmap str str) (markers : list Marker.t) (f : File.t) :
  build_file section path values markers = Ok f →
  File.path f = path ∧ File.markers f = markers ∧
  File.group f = values !! lit "group" ∧
  values !! lit "url" = Some (File.url f) ∧
  values !! lit "sha256" = Some (File.sha256 f) ∧
  truthy_opt (values !! lit "extract")
  = truthy_opt (values !! lit "extract_path") ∧
  (∀ e, values !! lit "extract" = Some e →
        e ∈ [lit "noop"; lit "tar"; lit "zip"]) ∧
  truthy_opt (values !! lit "group") = truthy markers.
Proof.
  unfold build_file.
  destruct (values !! lit "url") as [url|]; [| discriminate].
  destruct (values !! lit "sha256") as [sha|]; [| discriminate].
  destruct (eqb _ _) eqn:Hpair; simpl; [| discriminate].
  apply eqb_prop in Hpair.
  destruct (values !! lit "extract") as [e|] eqn:Hextract.
  - case_bool_decide as Hin; simpl; [| discriminate].
    destruct (eqb (truthy_opt _) (truthy markers)) eqn:Hgroup; simpl;
      [| discriminate].
    apply eqb_prop in Hgroup. intros [= <-]. simpl.
    repeat split; try done. intros e' [= <-]. by apply _EXTRACT_names.
  - destruct (eqb (truthy_opt _) (truthy markers)) eqn:Hgroup; simpl;
      [| discriminate].
    apply eqb_prop in Hgroup. intros [= <-]. simpl.
    repeat split; try done.
Qed.

(** The error on a strategy that is not known, when the checks before it
    pass. *)
Lemma build_file_extract `{Runtime} (section path : str)
    (values : gmap str str) (markers : list Marker.t) (e : str) :
  values !! lit "extract" = Some e →
  e ∉ [lit "noop"; lit "tar"; lit "zip"] →
  is_Some (values !! lit "url") → is_Some (values !! lit "sha256") →
  truthy e = truthy_opt (values !! lit "extract_path") →
  build_file section path values markers
  = Raise (ValueError
      (section ++ lit "[" ++ path ++ lit "]extract: unexpected value " ++
       repr e ++ lit ", (tar, zip)")).
Proof.
  intros He Hnot [url Hurl] [sha Hsha] Hpair. unfold build_file.
  rewrite Hurl, Hsha, He. simpl. rewrite <- Hpair.
  rewrite eqb_reflx. simpl.
  rewrite bool_decide_eq_false_2 by (by rewrite _EXTRACT_names). simpl.
  rewrite _EXTRACT_listed. reflexivity.
Qed.

Lemma parse_sections_ok_inv `{Runtime} (section : str) (l : list (str * str))
    (files : list File.t) :
  parse_sections section l = Ok files →
  Forall2 (λ pb f, parse_section section pb.1 pb.2 = Ok f) l files.
Proof.
  revert files. induction l as [|[path body] l IH]; intros files Hok.
  - simpl in Hok. injection Hok as <-. constructor.
  - simpl in Hok.
    destruct (parse_section section path body) as [f|] eqn:Hf; [| discriminate].
    simpl in Hok.
    destruct (parse_sections section l) as [fs|]; [| discriminate].
    simpl in Hok. injection Hok as <-. constructor; [done | by apply IH].
Qed.

(** The sections are read in order, up to the first that is refused. *)
Lemma parse_sections_raise `{Runtime} (section : str)
    (pre post : list (str * str)) (path body : str) (e : exn) :
  is_ok (parse_sections section pre) = true →
  parse_section section path body = Raise e →
  parse_sections section (pre ++ (path, body) :: post) = Raise e.
Proof.
  induction pre as [|[p b] pre IH]; intros Hpre Hbad.
  - simpl. by rewrite Hbad.
  - simpl in *. destruct (parse_section section p b) as [f|]; [| discriminate].
    simpl in *. destruct (parse_sections section pre) as [fs|]; [| discriminate].
    rewrite IH by done. done.
Qed.

Lemma _parse_ok_inv `{Runtime} (s : option str) (section : str)
    (files : list File.t) :
  _parse s section = Ok files →
  ∃ parts, _SECTION_split (strip (or_empty s)) = lit "" :: parts ∧
    parse_sections section (zip_pairs parts) = Ok files.
Proof.
  unfold _parse. destruct (_SECTION_split _) as [|junk parts]; [discriminate |].
  unfold str_eqb. case_bool_decide as Hjunk; simpl; [| discriminate].
  intros Hok. exists parts. by rewrite Hjunk.
Qed.

Lemma parse_section_ok_inv `{Runtime} (section path body : str) (f : File.t) :
  parse_section section path body = Ok f →
  ∃ values markers,
    parse_lines section path (splitlines (strip body)) ∅ [] = Ok (values, markers) ∧
    build_file section path values markers = Ok f.
Proof.
  unfold parse_section.
  destruct (parse_lines _ _ _ _ _) as [[values markers]|]; [| discriminate].
  simpl. intros Hf. by exists values, markers.
Qed.

(** A manifest that is parsed gives [extract] no value but a name of
    [_EXTRACT]. *)
Lemma parsed_extract `{Runtime} (s : option str) (section : str)
    (files : list File.t) (parts : list str) (path body line k v : str) :
  _parse s section = Ok files →
  _SECTION_split (strip (or_empty s)) = lit "" :: parts →
  (path, body) ∈ zip_pairs parts →
  line ∈ splitlines (strip body) → split1 EQUALS line = [k; v] →
  strip k = lit "extract" →
  strip v ∈ [lit "noop"; lit "tar"; lit "zip"].
Proof.
  intros Hok Hsplit Hin Hline Hkv Hkey.
  apply _parse_ok_inv in Hok as (parts' & Hsplit' & Hok).
  rewrite Hsplit in Hsplit'. injection Hsplit' as <-.
  apply parse_sections_ok_inv in Hok.
  apply list_elem_of_lookup in Hin as [i Hi].
  destruct (Forall2_lookup_l _ _ _ _ _ Hok Hi) as (f & _ & Hf).
  simpl in Hf. apply parse_section_ok_inv in Hf as (values & markers & Hlines & Hf).
  apply build_file_ok_inv in Hf as (_ & _ & _ & _ & _ & _ & Hextract & _).
  apply Hextract. rewrite <- Hkey.
  eapply parse_lines_values; [exact Hlines | exact Hline | exact Hkv |].
  rewrite Hkey. vm_compute. discriminate.
Qed.

(** ** The specification of the manifest parser *)

(** A manifest with a section that gives [extract] a value other than
    [noop], [tar] and [zip] is not parsed; when the sections before it are
    accepted, its lines are read, [url] and [sha256] are there and
    [extract_path] is empty or absent exactly when [extract] is empty, the
    error is the one on the unexpected value, whose message lists
    [tar, zip]. *)
Theorem extract_values_refused `{Runtime} (s : option str) (section : str)
    (parts : list str) (pre post : list (str * str)) (path body : str) :
  _SECTION_split (strip (or_empty s)) = lit "" :: parts →
  zip_pairs parts = pre ++ (path, body) :: post →
  (∀ line k v,
     line ∈ splitlines (strip body) → split1 EQUALS line = [k; v] →
     strip k = lit "extract" →
     strip v ∉ [lit "noop"; lit "tar"; lit "zip"] →
     ∃ err, _parse s section = Raise err)
  ∧
  (∀ values markers e,
     is_ok (parse_sections section pre) = true →
     parse_lines section path (splitlines (strip body)) ∅ []
     = Ok (values, markers) →
     values !! lit "extract" = Some e →
     e ∉ [lit "noop"; lit "tar"; lit "zip"] →
     is_Some (values !! lit "url") → is_Some (values !! lit "sha256") →
     truthy e = truthy_opt (values !! lit "extract_path") →
     _parse s section
     = Raise (ValueError
         (section ++ lit "[" ++ path ++ lit "]extract: unexpected value " ++
          repr e ++ lit ", (tar, zip)"))).
Proof.
  intros Hsplit Hpairs. split.
  - intros line k v Hline Hkv Hkey Hnot.
    destruct (_parse s section) as [files|err] eqn:Hparse; [| by exists err].
    exfalso. apply Hnot.
    apply (parsed_extract s section files parts path body line k v); try done.
    rewrite Hpairs. set_solver.
  - intros values markers e Hpre Hlines He Hnot Hurl Hsha Hpair.
    unfold _parse. rewrite Hsplit. simpl. rewrite Hpairs.
    apply parse_sections_raise; [done |].
    unfold parse_section. rewrite Hlines. simpl.
    by apply build_file_extract.
Qed.

Lemma extract_values_refused_witness :
  (∃ err, @_parse linux_host (Some MANIFEST_AR_ALONE) (lit "example") = Raise err)
  ∧ @_parse linux_host (Some MANIFEST_AR) (lit "example")
    = Raise (ValueError
        (lit "example" ++ lit "[" ++ lit "f1" ++
         lit "]extract: unexpected value " ++ repr_plain (lit "ar") ++
         lit ", (tar, zip)")).
Proof.
  split.
  - destruct (extract_values_refused (H := linux_host) (Some MANIFEST_AR_ALONE)
                (lit "example")
                (tail (_SECTION_split (strip MANIFEST_AR_ALONE))) [] []
                (lit "f1")
                (default [] (_SECTION_split (strip MANIFEST_AR_ALONE) !! 2%nat)))
      as [Hfails _].
    + vm_compute. reflexivity.
    + vm_compute. reflexivity.
    + apply (Hfails (lit "extract = ar") (lit "extract ") (lit " ar")).
      * vm_compute. do 2 right. left.
      * vm_compute. reflexivity.
      * vm_compute. reflexivity.
      * apply (bool_decide_unpack _). vm_compute. exact I.
  - destruct (extract_values_refused (H := linux_host) (Some MANIFEST_AR)
                (lit "example")
                (tail (_SECTION_split (strip MANIFEST_AR))) [] []
                (lit "f1")
                (default [] (_SECTION_split (strip MANIFEST_AR) !! 2%nat)))
      as [_ Hmessage].
    + vm_compute. reflexivity.
    + vm_compute. reflexivity.
    + apply (Hmessage
               (<[lit "extract_path" := lit "release-v1.0/f1"]>
                  (<[lit "extract" := lit "ar"]>
                     (<[lit "sha256" := lit "deadbeef"]>
                        (<[lit "url" := lit "https://example.com/f1.ar"]> ∅))))
               [] (lit "ar")).
      * reflexivity.
      * vm_compute. reflexivity.
      * vm_compute. reflexivity.
      * apply (bool_decide_unpack _). vm_compute. exact I.
      * exists (lit "https://example.com/f1.ar"). vm_compute. reflexivity.
      * exists (lit "deadbeef"). vm_compute. reflexivity.
      * vm_compute. reflexivity.
Defined.

(** The checks of a section run in the order of the code: a section that
    gives [extract] without [extract_path] is refused on the missing pair,
    before the value of [extract] is looked at. *)
Example extract_alone_reports_pair :
  @_parse linux_host (Some MANIFEST_AR_ALONE) (lit "example")
  = Raise (ValueError (lit "example[f1]: missing `extract` + `extract_path`")).
Proof. vm_compute. reflexivity. Qed.

(** C7: a section whose [extract] line has the value [noop], with an
    [extract_path] line, is parsed on every host, into a descriptor whose
    archive has the strategy [noop] and that member path: the test of the
    value is membership in [_EXTRACT], of which [noop] is a key, although
    the message of that check names [tar] and [zip] only. *)
Theorem C7_noop_accepted `{Runtime} :
  _parse (Some MANIFEST_NOOP) (lit "example")
  = Ok [File.mk (lit "f1") (lit "https://example.com/f1.ar") (lit "deadbeef")
          (Archive.mk (lit "noop") (lit "release-v1.0/f1")) None []].
Proof. vm_compute. reflexivity. Qed.

(** C10: a section with a [group =] line of empty value and no [marker]
    line is parsed, into a descriptor that has a group, the empty str, and
    no marker. *)
Theorem C10_empty_group_accepted `{Runtime} :
  _parse (Some MANIFEST_EMPTY_GROUP) (lit "example")
  = Ok [File.mk (lit "f1") (lit "https://example.com/f1") (lit "deadbeef")
          Archive.default (Some (lit "")) []].
Proof. vm_compute. reflexivity. Qed.

Lemma parsed_group_facts `{Runtime} (s : option str) (section : str)
    (files : list File.t) (f : File.t) :
  _parse s section = Ok files → f ∈ files →
  (File.markers f ≠ [] → ∃ g, File.group f = Some g ∧ g ≠ lit "") ∧
  (File.markers f = [] → File.group f = None ∨ File.group f = Some (lit "")).
Proof.
  intros Hok Hin. apply _parse_ok_inv in Hok as (parts & _ & Hok).
  apply parse_sections_ok_inv in Hok.
  apply list_elem_of_lookup in Hin as [i Hi].
  destruct (Forall2_lookup_r _ _ _ _ _ Hok Hi) as ([path body] & _ & Hf).
  simpl in Hf. apply parse_section_ok_inv in Hf as (values & markers & _ & Hf).
  apply build_file_ok_inv in Hf as (_ & -> & -> & _ & _ & _ & _ & Hgroup).
  destruct (values !! lit "group") as [[|c g]|], markers as [|m ms];
    simpl in Hgroup; try discriminate; split; intros Hm; try done; eauto.
Qed.

(** What the parser does keep of the pairing of [group] and [marker]: a
    descriptor with markers has a group that is not empty, and a
    descriptor without markers has no group or the empty one. *)
Theorem parsed_group_markers `{Runtime} (s : option str) (section : str)
    (files : list File.t) (f : File.t) :
  _parse s section = Ok files → f ∈ files →
  (File.markers f ≠ [] → ∃ g, File.group f = Some g ∧ g ≠ lit "") ∧
  (File.markers f = [] → File.group f = None ∨ File.group f = Some (lit "")).
Proof. apply parsed_group_facts. Qed.

Lemma parsed_group_markers_witness :
  let f := plain "f1" "deadbeef" in
  File.group f = None ∨ File.group f = Some (lit "").
Proof.
  intros f.
  refine (proj2 (parsed_group_markers (H := linux_host)
            (Some (lit "[f1]
url = https://example.com/f1
sha256 = deadbeef
")) (lit "example") [f] f _ _) eq_refl).
  - vm_compute. reflexivity.
  - left.
Defined.

(** ** The digest *)

Lemma be_bytes_bound (n : nat) (x : N) : Forall (λ b, b < 256) (hashlib.be_bytes n x).
Proof.
  induction n as [|n IH]; simpl; constructor; [| done].
  change 255 with (N.ones 8). rewrite N.land_ones. by apply N.mod_lt.
Qed.

Lemma hexdigit_lower (d : N) :
  d < 16 →
  48 ≤ hashlib.hexdigit d ≤ 57 ∨ 97 ≤ hashlib.hexdigit d ≤ 102.
Proof. intros Hd. unfold hashlib.hexdigit. destruct (N.ltb_spec d 10); lia. Qed.

(** The digest is written with the digits [0] to [9] and [a] to [f]. *)
Lemma hexdigest_lower_hex (data : bytes) :
  Forall (λ c, 48 ≤ c ≤ 57 ∨ 97 ≤ c ≤ 102) (hashlib.sha256_hexdigest data).
Proof.
  unfold hashlib.sha256_hexdigest. apply Forall_bind, Forall_forall.
  intros w _. apply Forall_bind.
  eapply Forall_impl; [apply be_bytes_bound |].
  intros b Hb. unfold hashlib.hex_of_byte.
  apply Forall_cons. split; [| apply Forall_cons; split; [| constructor]].
  - apply hexdigit_lower. rewrite N.shiftr_div_pow2.
    apply N.Div0.div_lt_upper_bound. change (2 ^ 4) with 16. simpl in Hb. lia.
  - apply hexdigit_lower. change 15 with (N.ones 4). rewrite N.land_ones.
    by apply N.mod_lt.
Qed.

Lemma hexdigest_isascii (data : bytes) :
  isascii (hashlib.sha256_hexdigest data) = true.
Proof.
  unfold isascii. apply Is_true_eq_true, forallb_True.
  eapply Forall_impl; [apply hexdigest_lower_hex |].
  intros c Hc. simpl in *. apply Is_true_eq_left, N.ltb_lt. lia.
Qed.

(** The digest check lets through the expected digest that is the computed
    one, character for character, and no other. *)
Lemma download_check `{Runtime} (f : File.t) (base : str) (fs : gmap str bytes)
    (contents : bytes) :
  urlopen_read (File.url f) = Ok contents →
  (hashlib.sha256_hexdigest contents = File.sha256 f →
   _download f base fs = store f base contents fs) ∧
  (hashlib.sha256_hexdigest contents ≠ File.sha256 f →
   isascii (File.sha256 f) = true →
   _download f base fs
   = Raise (ValueError (mismatch f (hashlib.sha256_hexdigest contents)))) ∧
  (hashlib.sha256_hexdigest contents ≠ File.sha256 f →
   isascii (File.sha256 f) = false →
   _download f base fs
   = Raise (TypeError
       (lit "comparing strings with non-ASCII characters is not supported"))).
Proof.
  intros Hread. unfold _download. rewrite Hread. simpl.
  unfold compare_digest. rewrite hexdigest_isascii. simpl.
  split; [| split].
  - intros Hsame. rewrite <- Hsame, hexdigest_isascii. simpl.
    unfold str_eqb. by rewrite bool_decide_eq_true_2.
  - intros Hne Hascii. rewrite Hascii. simpl.
    unfold str_eqb. by rewrite bool_decide_eq_false_2.
  - intros Hne Hascii. by rewrite Hascii.
Qed.

(** ** The specification of the digest check *)

(** C4, as the code has it: the digest check passes when the expected
    digest is the lowercase hexadecimal SHA-256 digest of the bytes read,
    character for character, and in no other case, so an expected digest
    in capitals does not pass; when they differ the error carries [repr]
    of the computed and of the expected digest, or is the error of the
    comparison when the expected digest is not ASCII. *)
Theorem C4_digest_check `{Runtime} (f : File.t) (base : str)
    (fs : gmap str bytes) (contents : bytes) :
  urlopen_read (File.url f) = Ok contents →
  let got := hashlib.sha256_hexdigest contents in
  (got = File.sha256 f → _download f base fs = store f base contents fs) ∧
  (got ≠ File.sha256 f → isascii (File.sha256 f) = true →
   _download f base fs
   = Raise (ValueError
       (File.path f ++ lit ": checksum mismatch got=" ++ repr got ++
        lit " f.sha256=" ++ repr (File.sha256 f)))) ∧
  (got ≠ File.sha256 f → isascii (File.sha256 f) = false →
   _download f base fs
   = Raise (TypeError
       (lit "comparing strings with non-ASCII characters is not supported"))).
Proof. intros Hread got. by apply download_check. Qed.

Lemma C4_digest_check_witness :
  @_download linux_host (served DIGEST_LOWER) (lit "build/download/data_files") ∅
  = @store linux_host (served DIGEST_LOWER) (lit "build/download/data_files")
      (list_byte_of_string "hello hello") ∅
  ∧ @_download linux_host (served "deadbeefdeadbeef")
      (lit "build/download/data_files") ∅
    = Raise (ValueError
        (lit "share/example/f" ++ lit ": checksum mismatch got=" ++
         repr_plain (lit DIGEST_LOWER) ++
         lit " f.sha256=" ++ repr_plain (lit "deadbeefdeadbeef"))).
Proof.
  split.
  - refine (proj1 (C4_digest_check (H := linux_host) (served DIGEST_LOWER)
                     (lit "build/download/data_files") ∅
                     (list_byte_of_string "hello hello") _) _);
      vm_compute; reflexivity.
  - refine (proj1 (proj2 (C4_digest_check (H := linux_host)
                            (served "deadbeefdeadbeef")
                            (lit "build/download/data_files") ∅
                            (list_byte_of_string "hello hello") _)) _ _).
    + vm_compute. reflexivity.
    + vm_compute. discriminate.
    + vm_compute. reflexivity.
Defined.

(** C4 as it is written fails on an expected digest in capitals: it is the
    digest of the bytes read but for the case, and the download stops with
    the checksum error. *)
Lemma C4_counterexample :
  @urlopen_read linux_host (File.url (served DIGEST_UPPER))
  = Ok (list_byte_of_string "hello hello")
  ∧ lower (File.sha256 (served DIGEST_UPPER))
    = hashlib.sha256_hexdigest (list_byte_of_string "hello hello")
  ∧ @_download linux_host (served DIGEST_UPPER)
      (lit "build/download/data_files") ∅
    = Raise (ValueError
        (lit "share/example/f: checksum mismatch got='" ++ lit DIGEST_LOWER ++
         lit "' f.sha256='" ++ lit DIGEST_UPPER ++ lit "'")).
Proof. repeat split; vm_compute; reflexivity. Qed.

(** The download of the file served under its digest writes it. *)
Example download_writes :
  @_download linux_host (served DIGEST_LOWER) (lit "build/download/data_files") ∅
  = Ok {[ lit "build/download/data_files/share/example/f"
          := list_byte_of_string "hello hello" ]}.
Proof. vm_compute. reflexivity. Qed.

(** ** Further properties *)

(** In a text without [" or "], a clause of three tokens whose value token
    does not start or does not end with a double quote is refused with the
    message on the invalid part, and so is the text: the clauses split as
    [pre], [bad], [post], where every clause of [pre] is accepted, [bad] is
    refused, and the error of the text is the message on [bad], the first
    clause refused. *)
Theorem value_token_refused (s chunk key op value : str) :
  contains (lit " or ") s = false →
  chunk ∈ split (lit " and ") s →
  split_ws chunk = [key; op; value] →
  startswith value [DQUOTE] = false ∨ endswith value [DQUOTE] = false →
  Marker.parse_chunk chunk = Raise (ValueError (Marker.invalid chunk)) ∧
  ∃ pre bad post, split (lit " and ") s = pre ++ bad :: post ∧
    Forall (λ c, is_ok (Marker.parse_chunk c) = true) pre ∧
    is_ok (Marker.parse_chunk bad) = false ∧
    Marker.parse s = Raise (ValueError (Marker.invalid bad)).
Proof.
  intros Hor Hin Htok Hquote.
  destruct (parse_chunk_tokens chunk key op value Htok)
    as [(_ & _ & Hs & He & _) | [_ Hbad]].
  - destruct Hquote; congruence.
  - split; [exact Hbad |]. apply (parse_first_refused s chunk _ Hor Hin Hbad).
Qed.

Lemma value_token_refused_witness :
  Marker.parse (clause "os_name" "posix" ++ lit " and sys_platform == linux and x")
  = Raise (ValueError (Marker.invalid (lit "sys_platform == linux"))).
Proof.
  destruct (value_token_refused
              (clause "os_name" "posix" ++ lit " and sys_platform == linux and x")
              (lit "sys_platform == linux")
              (lit "sys_platform") (lit "==") (lit "linux"))
    as [_ (pre & bad & post & Hsplit & Hpre & Hbad & Hraise)].
  - vm_compute. reflexivity.
  - vm_compute. right. left.
  - vm_compute. reflexivity.
  - left. vm_compute. reflexivity.
  - assert (split (lit " and ")
              (clause "os_name" "posix" ++ lit " and sys_platform == linux and x")
            = [clause "os_name" "posix"; lit "sys_platform == linux"; lit "x"])
      as Hsplit' by (vm_compute; reflexivity).
    rewrite Hsplit' in Hsplit.
    destruct pre as [|c1 [|c2 pre]].
    + injection Hsplit as <- _. vm_compute in Hbad. discriminate.
    + injection Hsplit as _ <- _. exact Hraise.
    + injection Hsplit as _ <- _. apply Forall_cons in Hpre as [_ Hpre].
      apply Forall_cons in Hpre as [Hc2 _]. vm_compute in Hc2. discriminate.
Defined.

(** The filter returns exactly when the selected descriptors repeat no
    path and no group and carry every group of the input, and then it
    returns them. *)
Theorem filter_returns_iff `{Runtime} (src : list File.t) (section : str)
    (ret : list File.t) :
  _filter src section = Ok ret ↔
  ret = List.filter (selected _default_env) src ∧
  NoDup (paths_of ret) ∧ NoDup (groups_of ret) ∧
  ∀ g, g ∈ groups_of src → g ∈ groups_of ret.
Proof.
  split; [apply filter_ok_inv |].
  intros (-> & Hp & Hg & Hall). by apply filter_ok.
Qed.

(** An empty or absent manifest has no descriptor. *)
Theorem parse_trivial `{Runtime} (section : str) :
  _parse None section = Ok [] ∧ _parse (Some (lit "")) section = Ok [].
Proof. split; reflexivity. Qed.

Lemma round_length (st : list N) (kw : N * N) :
  length st = 8%nat → length (hashlib.round st kw) = 8%nat.
Proof.
  intros Hlen. do 9 (destruct st as [|? st]; try discriminate). reflexivity.
Qed.

Lemma compress_length (h block : list N) :
  length h = 8%nat → length (hashlib.compress h block) = 8%nat.
Proof.
  intros Hlen. unfold hashlib.compress. rewrite length_zip_with.
  assert (∀ l st, length st = 8%nat → length (foldl hashlib.round st l) = 8%nat)
    as Hfold.
  { induction l as [|kw l IH]; intros st Hst; [done |].
    simpl. apply IH. by apply round_length. }
  rewrite Hfold by done. lia.
Qed.

Lemma digest_length (data : bytes) : length (hashlib.digest data) = 8%nat.
Proof.
  unfold hashlib.digest. generalize (hashlib.chunks 64 (hashlib.pad (Byte.to_N <$> data))).
  assert (length hashlib.H0 = 8%nat) as Hlen by reflexivity. revert Hlen.
  generalize hashlib.H0. intros h Hlen blocks. revert h Hlen.
  induction blocks as [|b blocks IH]; intros h Hlen; [done |].
  simpl. apply IH. by apply compress_length.
Qed.

Lemma length_bind_const {A B} (f : A → list B) (c : nat) (l : list A) :
  (∀ x, length (f x) = c) → length (l ≫= f) = (c * length l)%nat.
Proof.
  intros Hf. induction l as [|x l IH]; [simpl; lia |].
  rewrite bind_cons, length_app, Hf, IH. simpl. lia.
Qed.

Lemma be_bytes_length (n : nat) (x : N) : length (hashlib.be_bytes n x) = n.
Proof. induction n as [|n IH]; simpl; congruence. Qed.

(** The digest of any bytes is 64 characters among [0] to [9] and [a] to
    [f]. *)
Theorem hexdigest_shape (data : bytes) :
  length (hashlib.sha256_hexdigest data) = 64%nat ∧
  Forall (λ c, 48 ≤ c ≤ 57 ∨ 97 ≤ c ≤ 102) (hashlib.sha256_hexdigest data).
Proof.
  split; [| apply hexdigest_lower_hex].
  unfold hashlib.sha256_hexdigest.
  rewrite (length_bind_const _ 8), digest_length; [done |].
  intros w. rewrite (length_bind_const _ 2), be_bytes_length; done.
Qed.

(** ** The tests of the repository, on the model *)

Example test_marker_does_not_support_or :
  Marker.parse (clause "os_name" "nt" ++ lit " or " ++ clause "os_name" "darwin")
  = Raise (NotImplementedError
      (lit "Marker only supports `and` -- maybe repeat `marker =`?")).
Proof. vm_compute. reflexivity. Qed.

Example test_marker_parse_invalid :
  Forall (λ s, Marker.parse s = Raise (ValueError (Marker.invalid s)))
    [ lit "os_name =="; clause "os_name" "with spaces"; clause "extra" "wat";
      lit "os_name != " ++ [DQUOTE] ++ lit "nt" ++ [DQUOTE];
      lit "os_name == nt" ].
Proof. repeat constructor. Qed.

Example test_marker_parse_and :
  Marker.parse (clause "os_name" "posix" ++ lit " and " ++
                clause "sys_platform" "linux")
  = Ok (Marker.mk (clause "os_name" "posix" ++ lit " and " ++
                   clause "sys_platform" "linux")
          [(os_name, lit "posix"); (sys_platform, lit "linux")]).
Proof. vm_compute. reflexivity. Qed.

Example test_parse : @_parse linux_host (Some MANIFEST_TEST) (lit "example") = Ok FILES_TEST.
Proof. vm_compute. reflexivity. Qed.

Example test_parse_unexpected_key :
  @_parse linux_host (Some (lit "[f1]
wat = 1
")) (lit "example")
  = Raise (ValueError (lit "example[f1]wat: unexpected key")).
Proof. vm_compute. reflexivity. Qed.

Example test_parse_duplicate_key :
  @_parse linux_host (Some (lit "[f1]
url = https://example.com/f1
url = https://example.com/f2
sha256 = deadbeef
")) (lit "example")
  = Raise (ValueError (lit "example[f1]url: duplicate key")).
Proof. vm_compute. reflexivity. Qed.

Example test_parse_missing_url_or_sha256 :
  @_parse linux_host (Some (lit "[f1]
sha256 = deadbeef
")) (lit "example")
  = Raise (ValueError (lit "example[f1]: missing `url` + `sha256`")).
Proof. vm_compute. reflexivity. Qed.

Example test_parse_missing_group_or_marker :
  @_parse linux_host (Some (lit "[f1]
url = https://example.com/f1
sha256 = deadbeef
group = f1-binary
")) (lit "example")
  = Raise (ValueError (lit "example[f1]: missing `group` + `marker`"))
  ∧ @_parse linux_host (Some (lit "[f1]
url = https://example.com/f1
sha256 = deadbeef
marker = " ++ clause "sys_platform" "linux" ++ lit "
")) (lit "example")
    = Raise (ValueError (lit "example[f1]: missing `group` + `marker`")).
Proof. split; vm_compute; reflexivity. Qed.

Example test_filter_no_markers :
  @_filter linux_host [plain "f1" "deadbeef"] (lit "example")
  = Ok [plain "f1" "deadbeef"].
Proof. vm_compute. reflexivity. Qed.

Example test_filter_only_one_matching :
  @_filter linux_host
    [grouped "f1" "deadbeef" "f1-binary"
       [marker_of _internal "_internal" "hellohello"];
     grouped "f1" "deadbeef" "f1-binary"
       [marker_of _internal "_internal" "never"]] (lit "example")
  = Ok [grouped "f1" "deadbeef" "f1-binary"
          [marker_of _internal "_internal" "hellohello"]].
Proof. vm_compute. reflexivity. Qed.

Example test_filter_missing_file_for_group :
  @_filter linux_host
    [grouped "f1.exe" "baadbaad" "f1-binary"
       [marker_of _internal "_internal" "never.exe"];
     grouped "f1" "deadbeef" "f1-binary"
       [marker_of _internal "_internal" "never"]] (lit "example")
  = Raise (ValueError (lit "`f1-binary` is not supported on your platform

(debug info):
- os_name='posix'
- sys_platform='linux'
- platform_machine='x86_64'")).
Proof. vm_compute. reflexivity. Qed.

Example marker_of_parse :
  Marker.parse (clause "sys_platform" "linux")
  = Ok (marker_of sys_platform "sys_platform" "linux").
Proof. vm_compute. reflexivity. Qed.

(** ** Tokens *)

Lemma split_ws_go_end (cur : str) :
  split_ws_go cur [] = if truthy cur then [reverse cur] else [].
Proof. reflexivity. Qed.

(** White space cuts the tokens of a text in two. *)
Lemma split_ws_go_space (cur a b : str) (c : N) :
  isspace c = true →
  split_ws_go cur (a ++ c :: b) = split_ws_go cur a ++ split_ws b.
Proof.
  intros Hc. revert cur. induction a as [|x a IH]; intros cur; simpl.
  - rewrite Hc. by destruct cur.
  - destruct (isspace x); [| apply IH].
    destruct (truthy cur); simpl; by rewrite IH.
Qed.

Lemma split_ws_space (a b : str) (c : N) :
  isspace c = true → split_ws (a ++ c :: b) = split_ws a ++ split_ws b.
Proof. apply split_ws_go_space. Qed.

(** A run without white space is one token. *)
Lemma split_ws_go_nospace (cur tok : str) :
  nospace tok → split_ws_go cur tok = split_ws_go (reverse tok ++ cur) [].
Proof.
  intros Htok. revert cur. induction Htok as [|c tok Hc _ IH]; intros cur.
  - reflexivity.
  - simpl. rewrite Hc, IH, reverse_cons, <- app_assoc. reflexivity.
Qed.

Lemma split_ws_token (tok : str) : nospace tok → tok ≠ [] → split_ws tok = [tok].
Proof.
  intros Htok Hne. unfold split_ws. rewrite split_ws_go_nospace by done.
  rewrite app_nil_r, split_ws_go_end.
  destruct (reverse tok) eqn:Hrev.
  - apply (f_equal reverse) in Hrev. rewrite reverse_involutive in Hrev. done.
  - simpl. by rewrite <- Hrev, reverse_involutive.
Qed.

(** A text that holds a word between two spaces has it among its tokens. *)
Lemma contains_token (word s : str) :
  nospace word → word ≠ [] →
  contains ([32] ++ word ++ [32]) s = true → word ∈ split_ws s.
Proof.
  intros Hword Hne (pre & post & ->)%contains_true.
  assert (pre ++ ([32] ++ word ++ [32]) ++ post
          = pre ++ 32 :: (word ++ 32 :: post)) as ->.
  { simpl. rewrite <- app_assoc. reflexivity. }
  rewrite (split_ws_space pre), (split_ws_space word) by reflexivity.
  rewrite (split_ws_token word) by done. set_solver.
Qed.

(** Without the separator in it a text is one piece. *)
Lemma split_go_absent (sep cur s : str) :
  contains sep s = false → split_go sep 0 cur s = [reverse cur ++ s].
Proof.
  revert cur. induction s as [|c s IH]; intros cur Hno; simpl.
  - by rewrite app_nil_r.
  - simpl in Hno. apply orb_false_iff in Hno as [Hhead Htail].
    rewrite Hhead, IH by done. by rewrite reverse_cons, <- app_assoc.
Qed.

Lemma split_absent (sep s : str) : contains sep s = false → split sep s = [s].
Proof. intros Hno. unfold split. by rewrite split_go_absent. Qed.

Lemma split_go_nonempty (sep : str) (skip : nat) (cur s : str) :
  split_go sep skip cur s ≠ [].
Proof.
  revert skip cur. induction s as [|c s IH]; intros skip cur; simpl; [done |].
  destruct skip; [| apply IH]. destruct (startswith _ _); [done | apply IH].
Qed.

Lemma _Key_getitem_name (k : _Key) : _Key_getitem (_Key_name k) = Ok k.
Proof. by destruct k. Qed.

Lemma _Key_getitem_inv (name : str) (k : _Key) :
  _Key_getitem name = Ok k → name = _Key_name k.
Proof.
  unfold _Key_getitem, _Key_members. simpl. unfold str_eqb.
  repeat (case_bool_decide; [subst; simpl; by intros [= <-] |]).
  discriminate.
Qed.

Lemma _Key_name_names (k : _Key) : _Key_name k ∈ KEY_NAMES.
Proof. destruct k; unfold KEY_NAMES; simpl; set_solver. Qed.

Lemma slice_quoted (v : str) : slice_1_m1 ([DQUOTE] ++ v ++ [DQUOTE]) = v.
Proof.
  unfold slice_1_m1. simpl. rewrite length_app. simpl.
  replace (length v + 1 - 0)%nat with (S (length v)) by lia.
  simpl. by rewrite take_app_length.
Qed.

(** A text of the three tokens of a clause is one clause, whatever white
    space lies around them. *)
Lemma parse_three_tokens (s name value : str) (k : _Key) :
  split_ws s = [name; lit "=="; value] →
  _Key_getitem name = Ok k →
  startswith value [DQUOTE] = true → endswith value [DQUOTE] = true →
  Marker.parse s = Ok (Marker.mk s [(k, slice_1_m1 value)]).
Proof.
  intros Htok Hk Hs He.
  assert (name ∈ KEY_NAMES) as Hname.
  { apply _Key_getitem_inv in Hk as ->. apply _Key_name_names. }
  assert (∀ word, nospace word → word ≠ [] → word ∉ KEY_NAMES →
            word ≠ lit "==" → startswith word [DQUOTE] = false →
            contains ([32] ++ word ++ [32]) s = false) as Hnot.
  { intros word Hw Hne Hkey Heq Hq.
    destruct (contains _ s) eqn:Hc; [| done].
    apply contains_token in Hc; [| done | done].
    rewrite Htok in Hc. set_unfold in Hc.
    destruct Hc as [-> | [-> | [-> | []]]]; [done | done | congruence]. }
  assert (contains (lit " or ") s = false) as Hor.
  { apply (Hnot (lit "or")); try done.
    - repeat constructor.
    - apply (bool_decide_unpack _). vm_compute. exact I. }
  assert (contains (lit " and ") s = false) as Hand.
  { apply (Hnot (lit "and")); try done.
    - repeat constructor.
    - apply (bool_decide_unpack _). vm_compute. exact I. }
  rewrite parse_single; [| done | by apply split_absent].
  unfold Marker.parse_chunk. rewrite Htok.
  rewrite (proj2 (_Key_has_true name) Hname), Hs, He.
  unfold str_eqb. rewrite bool_decide_eq_true_2 by done. simpl.
  by rewrite Hk.
Qed.

Lemma parse_chunks_length (chunks : list str) (ret : list (_Key * str)) :
  Marker.parse_chunks chunks = Ok ret → length ret = length chunks.
Proof.
  revert ret. induction chunks as [|c chunks IH]; intros ret Hok; simpl in Hok.
  - by injection Hok as <-.
  - destruct (Marker.parse_chunk c); [| discriminate]. simpl in Hok.
    destruct (Marker.parse_chunks chunks) as [r|]; [| discriminate].
    simpl in Hok. injection Hok as <-. simpl. f_equal. by apply IH.
Qed.

Lemma nospace_name (k : _Key) : nospace (_Key_name k).
Proof. destruct k; repeat constructor. Qed.

Lemma clause_tokens (name q : str) :
  nospace name → name ≠ [] → nospace q → q ≠ [] →
  split_ws (name ++ lit " == " ++ q) = [name; lit "=="; q].
Proof.
  intros Hname Hne Hq Hqne.
  change (name ++ lit " == " ++ q) with (name ++ 32 :: (lit "==" ++ 32 :: q)).
  rewrite (split_ws_space name), (split_ws_space (lit "==")) by reflexivity.
  rewrite (split_ws_token name), (split_ws_token q) by done. reflexivity.
Qed.

(** ** The marker parser, further *)

(** A text of three tokens, a key name, [==] and a value that starts and
    ends with a double quote, is accepted whatever white space separates
    or surrounds the tokens, as the marker of one pair. *)
Theorem three_tokens_accepted (s name value : str) (k : _Key) :
  split_ws s = [name; lit "=="; value] →
  _Key_getitem name = Ok k →
  startswith value [DQUOTE] = true → endswith value [DQUOTE] = true →
  Marker.parse s = Ok (Marker.mk s [(k, slice_1_m1 value)]).
Proof. apply parse_three_tokens. Qed.

Lemma three_tokens_accepted_witness :
  let s := [9] ++ lit "os_name  ==" ++ [9] ++ [DQUOTE] ++ lit "nt" ++
           [DQUOTE] ++ lit "  " in
  Marker.parse s = Ok (Marker.mk s [(os_name, lit "nt")]).
Proof.
  intros s.
  apply (three_tokens_accepted s (lit "os_name")
           ([DQUOTE] ++ lit "nt" ++ [DQUOTE]) os_name); reflexivity.
Defined.

(** The text [key == "value"] of a key and a value without white space is
    parsed into the marker of that one pair, which is true exactly of the
    snapshots that have the value under the key. *)
Theorem marker_round_trip (k : _Key) (v : str) (env : _Key → str) :
  nospace v →
  let text := _Key_name k ++ lit " == " ++ [DQUOTE] ++ v ++ [DQUOTE] in
  Marker.parse text = Ok (Marker.mk text [(k, v)]) ∧
  (Marker.evaluate (Marker.mk text [(k, v)]) env = true ↔ env k = v).
Proof.
  intros Hv text. split.
  - pose proof (parse_three_tokens text (_Key_name k)
                  ([DQUOTE] ++ v ++ [DQUOTE]) k) as Hparse.
    rewrite slice_quoted in Hparse. apply Hparse.
    + apply clause_tokens.
      * apply nospace_name.
      * by destruct k.
      * apply Forall_app. split; [repeat constructor |].
        apply Forall_app. split; [done | repeat constructor].
      * done.
    + apply _Key_getitem_name.
    + apply startswith_true. by eexists.
    + apply endswith_true. exists ([DQUOTE] ++ v). by rewrite <- app_assoc.
  - unfold Marker.evaluate. simpl. unfold str_eqb.
    rewrite andb_true_r, bool_decide_eq_true. reflexivity.
Qed.

Lemma marker_round_trip_witness :
  Marker.parse (clause "platform_machine" "x86_64")
  = Ok (Marker.mk (clause "platform_machine" "x86_64")
          [(platform_machine, lit "x86_64")]).
Proof.
  refine (proj1 (marker_round_trip platform_machine (lit "x86_64")
                   (λ _, []) _)).
  repeat constructor.
Defined.

(** A marker that is parsed keeps its text, has one pair for each of its
    clauses, never none, and its text is parsed into it again. *)
Theorem parsed_marker_shape (s : str) (m : Marker.t) :
  Marker.parse s = Ok m →
  Marker.orig m = s ∧
  length (Marker.parts m) = length (split (lit " and ") s) ∧
  Marker.parts m ≠ [] ∧
  Marker.parse (Marker.orig m) = Ok m.
Proof.
  intros Hok. pose proof Hok as Hparse. unfold Marker.parse in Hok.
  destruct (contains _ s); [discriminate |].
  destruct (Marker.parse_chunks _) as [ret|] eqn:Hret; [| discriminate].
  simpl in Hok. injection Hok as <-. simpl.
  apply parse_chunks_length in Hret.
  split; [done |]. split; [done |]. split; [| done].
  intros ->. simpl in Hret. symmetry in Hret.
  apply length_zero_iff_nil in Hret. by apply split_go_nonempty in Hret.
Qed.

Lemma parsed_marker_shape_witness :
  let s := clause "os_name" "posix" ++ lit " and " ++
           clause "sys_platform" "linux" in
  length (Marker.parts
            (Marker.mk s [(os_name, lit "posix"); (sys_platform, lit "linux")]))
  = length (split (lit " and ") s).
Proof.
  intros s.
  refine (proj1 (proj2 (parsed_marker_shape s _ _))).
  vm_compute. reflexivity.
Defined.

(** ** The section headers *)

Lemma header_run_spec (s run rest : str) :
  header_run s = (run, rest) →
  s = run ++ rest ∧ Forall (λ c, c ≠ RBRACKET ∧ c ≠ NL) run.
Proof.
  revert run rest. induction s as [|c s IH]; intros run rest Hrun; simpl in Hrun.
  - injection Hrun as <- <-. by split.
  - destruct ((c =? RBRACKET) || (c =? NL)) eqn:Hc.
    + injection Hrun as <- <-. by split.
    + destruct (header_run s) as [run' rest'] eqn:Hs.
      injection Hrun as <- <-.
      destruct (IH run' rest' eq_refl) as [-> Hall].
      split; [done |]. constructor; [| done].
      apply orb_false_iff in Hc as [H1 H2].
      by rewrite N.eqb_neq in H1, H2.
Qed.

(** A match of [_SECTION] is a header between its brackets, and the line
    ends after it. *)
Lemma _SECTION_match_spec (s name : str) :
  _SECTION_match s = Some name →
  header_name name ∧
  ∃ rest, s = [LBRACKET] ++ name ++ [RBRACKET] ++ rest ∧
          (rest = [] ∨ ∃ rest', rest = NL :: rest').
Proof.
  unfold _SECTION_match. destruct s as [|c s]; [discriminate |].
  destruct (N.eqb_spec c LBRACKET) as [-> |]; [| discriminate].
  destruct (header_run s) as [run rest] eqn:Hrun.
  apply header_run_spec in Hrun as [-> Hall].
  destruct run as [|x run]; [discriminate |].
  destruct rest as [|r rest]; [discriminate |].
  destruct (N.eqb_spec r RBRACKET) as [-> |]; [| discriminate]. simpl.
  destruct rest as [|c' rest'].
  - intros [= <-]. split; [by split |]. exists []. split; [| by left].
    reflexivity.
  - destruct (N.eqb_spec c' NL) as [-> |]; [| discriminate].
    intros [= <-]. split; [by split |]. exists (NL :: rest').
    split; [| right; by exists rest']. reflexivity.
Qed.

Arguments _SECTION_match : simpl never.

Lemma rejoin_split_go (bol : bool) (skip : nat) (cur s : str) :
  rejoin (_SECTION_split_go bol skip cur s) = reverse cur ++ drop skip s.
Proof.
  revert bol skip cur. induction s as [|c s IH]; intros bol skip cur.
  - simpl. rewrite drop_nil, app_nil_r. reflexivity.
  - simpl. destruct skip as [|k]; [| by rewrite IH].
    destruct (if bol then _SECTION_match (c :: s) else None) as [name|] eqn:Hm.
    + destruct bol; [| discriminate].
      apply _SECTION_match_spec in Hm as [_ (rest & Hs & _)].
      simpl in Hs. injection Hs as Hc Hs.
      change (rejoin (reverse cur :: name ::
                      _SECTION_split_go false (length name + 1) [] s))
        with (reverse cur ++ [LBRACKET] ++ name ++ [RBRACKET] ++
              rejoin (_SECTION_split_go false (length name + 1) [] s)).
      rewrite IH. subst c. rewrite Hs.
      replace (name ++ RBRACKET :: rest) with ((name ++ [RBRACKET]) ++ rest)
        by (by rewrite <- app_assoc).
      rewrite drop_app_length' by (rewrite length_app; simpl; lia).
      simpl. by rewrite <- app_assoc.
    + rewrite IH, reverse_cons, <- app_assoc. reflexivity.
Qed.

Lemma pieces_split_go (bol : bool) (skip : nat) (cur s : str) :
  pieces (_SECTION_split_go bol skip cur s).
Proof.
  revert bol skip cur. induction s as [|c s IH]; intros bol skip cur; simpl.
  - constructor.
  - destruct skip as [|k]; [| apply IH].
    destruct (if bol then _SECTION_match (c :: s) else None) as [name|] eqn:Hm;
      [| apply IH].
    destruct bol; [| discriminate].
    apply _SECTION_match_spec in Hm as [Hname _].
    constructor; [done | apply IH].
Qed.

Lemma pieces_headers (l : list str) :
  pieces l → Forall header_name (zip_pairs (tail l)).*1.
Proof.
  induction 1 as [text | text name rest Hname Hrest IH]; simpl; [constructor |].
  destruct Hrest as [t | t n r Hn Hr]; simpl in *.
  - constructor; [done | constructor].
  - constructor; [done | exact IH].
Qed.

(** Splitting a text at its section headers loses nothing of it: the
    pieces, with each header put back between its brackets, are the text;
    and every header is of one character at least, none of them a closing
    bracket or a newline. *)
Theorem section_split_rejoin (s : str) :
  rejoin (_SECTION_split s) = s ∧ pieces (_SECTION_split s).
Proof.
  split; [apply (rejoin_split_go true 0 [] s) | apply pieces_split_go].
Qed.

(** ** The manifest parser, further *)

Lemma lstrip_blank (s : str) : Forall (λ c, isspace c = true) s → lstrip s = [].
Proof. induction 1 as [|c s Hc _ IH]; simpl; [done |]. by rewrite Hc. Qed.

Lemma strip_blank (s : str) : Forall (λ c, isspace c = true) s → strip s = [].
Proof. intros Hs. unfold strip. by rewrite lstrip_blank. Qed.

(** A manifest that is absent or holds white space only has no
    descriptor. *)
Theorem parse_blank `{Runtime} (s : str) (section : str) :
  Forall (λ c, isspace c = true) s →
  _parse None section = Ok [] ∧ _parse (Some s) section = Ok [].
Proof.
  intros Hs. split; [reflexivity |]. unfold _parse.
  assert (strip (or_empty (Some s)) = []) as ->; [| reflexivity].
  simpl. destruct (truthy s); [by apply strip_blank | reflexivity].
Qed.

Lemma parse_blank_witness :
  @_parse linux_host (Some ([NL] ++ lit "   " ++ [9; NL])) (lit "example")
  = Ok [].
Proof.
  refine (proj2 (parse_blank (H := linux_host) _ (lit "example") _)).
  repeat constructor.
Defined.

Lemma parse_sections_paths `{Runtime} (section : str) (l : list (str * str))
    (files : list File.t) :
  parse_sections section l = Ok files → File.path <$> files = l.*1.
Proof.
  intros Hok. apply parse_sections_ok_inv in Hok.
  induction Hok as [|[path body] f l files Hf _ IH]; [done |].
  rewrite !fmap_cons. f_equal; [| exact IH].
  simpl in Hf. apply parse_section_ok_inv in Hf as (values & markers & _ & Hf).
  by apply build_file_ok_inv in Hf as (-> & _).
Qed.

Lemma parsed_paths_facts `{Runtime} (s : option str) (section : str)
    (files : list File.t) :
  _parse s section = Ok files →
  ∃ parts, _SECTION_split (strip (or_empty s)) = lit "" :: parts ∧
    File.path <$> files = (zip_pairs parts).*1 ∧
    Forall (λ f, header_name (File.path f)) files.
Proof.
  intros Hok. apply _parse_ok_inv in Hok as (parts & Hsplit & Hok).
  exists parts. split; [done |].
  apply parse_sections_paths in Hok. split; [done |].
  pose proof (pieces_headers _ (pieces_split_go true 0 [] (strip (or_empty s))))
    as Hnames.
  fold (_SECTION_split (strip (or_empty s))) in Hnames.
  rewrite Hsplit in Hnames. simpl in Hnames. rewrite <- Hok in Hnames.
  rewrite Forall_forall in Hnames. apply Forall_forall. intros f Hf.
  apply Hnames. by apply list_elem_of_fmap_2.
Qed.

(** The descriptors of a parsed manifest are its sections, one for one and
    in order, each with the text of its header as path: a path is never
    empty and never holds a closing bracket or a newline. *)
Theorem parsed_paths `{Runtime} (s : option str) (section : str)
    (files : list File.t) :
  _parse s section = Ok files →
  ∃ parts, _SECTION_split (strip (or_empty s)) = lit "" :: parts ∧
    File.path <$> files = (zip_pairs parts).*1 ∧
    Forall (λ f, header_name (File.path f)) files.
Proof. apply parsed_paths_facts. Qed.

Lemma parsed_paths_witness :
  File.path <$> FILES_TEST
  = (zip_pairs (tail (_SECTION_split (strip MANIFEST_TEST)))).*1
  ∧ Forall (λ f, header_name (File.path f)) FILES_TEST.
Proof.
  destruct (parsed_paths (H := linux_host) (Some MANIFEST_TEST) (lit "example")
              FILES_TEST) as (parts & Hsplit & Hpaths & Hnames).
  - vm_compute. reflexivity.
  - split; [| exact Hnames]. rewrite Hpaths. f_equal. f_equal.
    change (or_empty (Some MANIFEST_TEST)) with MANIFEST_TEST in Hsplit.
    by rewrite Hsplit.
Defined.

Lemma build_file_archive `{Runtime} (section path : str)
    (values : gmap str str) (markers : list Marker.t) (f : File.t) :
  build_file section path values markers = Ok f →
  File.archive f
  = match values !! lit "extract", values !! lit "extract_path" with
    | Some e, Some p => Archive.mk e p
    | _, _ => Archive.default
    end.
Proof.
  unfold build_file.
  destruct (values !! lit "url") as [url|]; [| discriminate].
  destruct (values !! lit "sha256") as [sha|]; [| discriminate].
  destruct (negb (eqb _ _)); [discriminate |].
  destruct (negb (eqb (truthy_opt _) (truthy markers))).
  { destruct (values !! lit "extract") as [e|]; [| discriminate].
    destruct (negb _); discriminate. }
  destruct (values !! lit "extract") as [e|].
  - destruct (negb _); [discriminate |]. by intros [= <-].
  - by intros [= <-].
Qed.

Lemma parsed_archive_facts `{Runtime} (s : option str) (section : str)
    (files : list File.t) (f : File.t) :
  _parse s section = Ok files → f ∈ files →
  (File.archive f = Archive.default ∨
   (Archive.strategy (File.archive f) ∈ [lit "noop"; lit "tar"; lit "zip"] ∧
    Archive.path (File.archive f) ≠ lit "")) ∧
  ∃ extract, _EXTRACT_getitem (Archive.strategy (File.archive f)) = Ok extract.
Proof.
  intros Hok Hin. apply _parse_ok_inv in Hok as (parts & _ & Hok).
  apply parse_sections_ok_inv in Hok.
  apply list_elem_of_lookup in Hin as [i Hi].
  destruct (Forall2_lookup_r _ _ _ _ _ Hok Hi) as ([path body] & _ & Hf).
  simpl in Hf. apply parse_section_ok_inv in Hf as (values & markers & _ & Hf).
  pose proof (build_file_archive _ _ _ _ _ Hf) as Harchive.
  apply build_file_ok_inv in Hf as (_ & _ & _ & _ & _ & Hpair & Hextract & _).
  assert (File.archive f = Archive.default ∨
          (Archive.strategy (File.archive f) ∈ [lit "noop"; lit "tar"; lit "zip"] ∧
           Archive.path (File.archive f) ≠ lit "")) as Hshape.
  { rewrite Harchive.
    destruct (values !! lit "extract") as [e|]; [| by left].
    destruct (values !! lit "extract_path") as [p|]; [| by left].
    right. simpl. specialize (Hextract e eq_refl). split; [done |].
    intros ->. simpl in Hpair. destruct e; [| discriminate].
    apply (bool_decide_pack _) in Hextract. vm_compute in Hextract. done. }
  split; [done |]. unfold _EXTRACT_getitem.
  assert (Archive.strategy (File.archive f) ∈ dom _EXTRACT) as Hdom.
  { apply _EXTRACT_names. destruct Hshape as [-> | [Hin _]]; [| done].
    simpl. set_solver. }
  apply elem_of_dom in Hdom as [extract ->]. by exists extract.
Qed.

(** The archive of a parsed descriptor is the default one, or names one of
    the three strategies with a member path that is not empty; so the
    strategy of a parsed descriptor is always found in [_EXTRACT]. *)
Theorem parsed_archive `{Runtime} (s : option str) (section : str)
    (files : list File.t) (f : File.t) :
  _parse s section = Ok files → f ∈ files →
  (File.archive f = Archive.default ∨
   (Archive.strategy (File.archive f) ∈ [lit "noop"; lit "tar"; lit "zip"] ∧
    Archive.path (File.archive f) ≠ lit "")) ∧
  ∃ extract, _EXTRACT_getitem (Archive.strategy (File.archive f)) = Ok extract.
Proof. apply parsed_archive_facts. Qed.

Lemma parsed_archive_witness :
  ∃ extract,
    @_EXTRACT_getitem linux_host (lit "tar") = Ok extract.
Proof.
  destruct (parsed_archive (H := linux_host) (Some MANIFEST_TEST)
              (lit "example") FILES_TEST
              (File.mk (lit "f2") (lit "https://example.com/f2.tar.gz")
                 (lit "cafecafe")
                 (Archive.mk (lit "tar") (lit "release-1.0/f2")) None []))
    as [_ Hfound].
  - vm_compute. reflexivity.
  - right. left.
  - exact Hfound.
Defined.

(** Every line the loop accepts has an equal sign and a key it knows. *)
Lemma parse_lines_known (section path : str) (lines : list str)
    (values0 values : gmap str str) (markers0 markers : list Marker.t)
    (line : str) :
  parse_lines section path lines values0 markers0 = Ok (values, markers) →
  line ∈ lines →
  ∃ k v, split1 EQUALS line = [k; v] ∧
    ((strip k = lit "marker" ∧ is_ok (Marker.parse (strip v)) = true) ∨
     (strip k ∈ VALUE_KEYS ∧ values0 !! strip k = None)).
Proof.
  revert values0 markers0.
  induction lines as [|l lines IH]; intros values0 markers0 Hok Hin.
  - apply elem_of_nil in Hin as [].
  - simpl in Hok.
    destruct (split1 EQUALS l) as [|k' [|v' [|? ?]]] eqn:Hsplit; try discriminate.
    unfold str_eqb in Hok. case_bool_decide as Hmarker.
    + destruct (Marker.parse (strip v')) as [m|e] eqn:Hm; [| discriminate].
      simpl in Hok. apply elem_of_cons in Hin as [-> | Hin].
      * exists k', v'. split; [done |]. left. by rewrite Hm.
      * by eapply IH.
    + case_bool_decide as Hkey; [| discriminate].
      case_bool_decide as Hdup; [discriminate |].
      apply elem_of_cons in Hin as [-> | Hin].
      * exists k', v'. split; [done |]. right. split; [done |].
        by apply eq_None_not_Some.
      * destruct (IH _ _ Hok Hin) as (k & v & Hkv & Hcase).
        exists k, v. split; [done |].
        destruct Hcase as [Hm | [Hk Hfresh]]; [by left | right].
        split; [done |].
        destruct (decide (strip k' = strip k)) as [Heq | Hne].
        -- rewrite <- Heq, lookup_insert_eq in Hfresh. discriminate.
        -- by rewrite lookup_insert_ne in Hfresh.
Qed.

(** No key but [marker] is on two lines the loop accepts. *)
Lemma parse_lines_once (section path : str) (lines : list str)
    (values0 values : gmap str str) (markers0 markers : list Marker.t)
    (i j : nat) (li lj ki vi kj vj : str) :
  parse_lines section path lines values0 markers0 = Ok (values, markers) →
  lines !! i = Some li → lines !! j = Some lj → (i < j)%nat →
  split1 EQUALS li = [ki; vi] → split1 EQUALS lj = [kj; vj] →
  strip ki = strip kj → strip ki = lit "marker".
Proof.
  revert values0 markers0 i j.
  induction lines as [|l lines IH]; intros values0 markers0 i j Hok Hi Hj Hlt
    Hsi Hsj Hsame; [done |].
  destruct j as [|j]; [lia |].
  simpl in Hok.
  destruct (split1 EQUALS l) as [|k' [|v' [|? ?]]] eqn:Hsplit; try discriminate.
  unfold str_eqb in Hok. case_bool_decide as Hmarker.
  - destruct (Marker.parse (strip v')) as [m|e]; [| discriminate].
    simpl in Hok. destruct i as [|i].
    + simpl in Hi. injection Hi as <-. rewrite Hsplit in Hsi.
      by injection Hsi as <- <-.
    + apply (IH _ _ i j Hok); try done. lia.
  - case_bool_decide as Hkey; [| discriminate].
    case_bool_decide as Hdup; [discriminate |].
    destruct i as [|i].
    + simpl in Hi. injection Hi as <-. rewrite Hsplit in Hsi.
      injection Hsi as <- <-. simpl in Hj.
      apply list_elem_of_lookup_2 in Hj.
      destruct (parse_lines_known _ _ _ _ _ _ _ _ Hok Hj)
        as (k & v & Hkv & Hcase).
      rewrite Hsj in Hkv. injection Hkv as <- <-.
      destruct Hcase as [[Hm _] | [_ Hfresh]]; [congruence |].
      rewrite <- Hsame, lookup_insert_eq in Hfresh. discriminate.
    + apply (IH _ _ i j Hok); try done. lia.
Qed.

(** In a parsed manifest every line of every section has an equal sign and
    a key that is [marker] or one of the five others, every marker line a
    text the marker parser accepts, and none of the five other keys is on
    two lines of one section. *)
Theorem parsed_lines `{Runtime} (s : option str) (section : str)
    (files : list File.t) (parts : list str) (path body : str) :
  _parse s section = Ok files →
  _SECTION_split (strip (or_empty s)) = lit "" :: parts →
  (path, body) ∈ zip_pairs parts →
  (∀ line, line ∈ splitlines (strip body) →
     ∃ k v, split1 EQUALS line = [k; v] ∧
       ((strip k = lit "marker" ∧ is_ok (Marker.parse (strip v)) = true) ∨
        strip k ∈ [lit "url"; lit "sha256"; lit "extract"; lit "extract_path";
                   lit "group"])) ∧
  (∀ i j li lj ki vi kj vj,
     splitlines (strip body) !! i = Some li →
     splitlines (strip body) !! j = Some lj → i ≠ j →
     split1 EQUALS li = [ki; vi] → split1 EQUALS lj = [kj; vj] →
     strip ki = strip kj → strip ki = lit "marker").
Proof.
  intros Hok Hsplit Hin.
  apply _parse_ok_inv in Hok as (parts' & Hsplit' & Hok).
  rewrite Hsplit in Hsplit'. injection Hsplit' as <-.
  apply parse_sections_ok_inv in Hok.
  apply list_elem_of_lookup in Hin as [n Hn].
  destruct (Forall2_lookup_l _ _ _ _ _ Hok Hn) as (f & _ & Hf).
  simpl in Hf. apply parse_section_ok_inv in Hf as (values & markers & Hlines & _).
  split.
  - intros line Hline.
    destruct (parse_lines_known _ _ _ _ _ _ _ _ Hlines Hline)
      as (k & v & Hkv & Hcase).
    exists k, v. split; [done |]. destruct Hcase as [Hm | [Hk _]]; auto.
  - intros i j li lj ki vi kj vj Hi Hj Hne Hsi Hsj Hsame.
    destruct (Nat.lt_total i j) as [Hlt | [-> | Hlt]]; [| done |].
    + by apply (parse_lines_once _ _ _ _ _ _ _ i j li lj ki vi kj vj Hlines).
    + rewrite Hsame.
      by apply (parse_lines_once _ _ _ _ _ _ _ j i lj li kj vj ki vi Hlines).
Qed.

Lemma parsed_lines_witness :
  ∃ k v, split1 EQUALS (lit "sha256 = deadbeef") = [k; v] ∧
    ((strip k = lit "marker" ∧ is_ok (Marker.parse (strip v)) = true) ∨
     strip k ∈ [lit "url"; lit "sha256"; lit "extract"; lit "extract_path";
                lit "group"]).
Proof.
  refine (proj1 (parsed_lines (H := linux_host) (Some MANIFEST_TEST)
                   (lit "example") FILES_TEST
                   (tail (_SECTION_split (strip MANIFEST_TEST)))
                   (lit "f1")
                   (default [] (_SECTION_split (strip MANIFEST_TEST) !! 2%nat))
                   _ _ _) (lit "sha256 = deadbeef") _).
  - vm_compute. reflexivity.
  - vm_compute. reflexivity.
  - vm_compute. left.
  - vm_compute. right. left.
Defined.

(** ** The filter, further *)

Lemma group_once (l : list File.t) (f f' : File.t) (g : str) :
  NoDup (groups_of l) → f ∈ l → f' ∈ l →
  File.group f = Some g → File.group f' = Some g → f = f'.
Proof.
  unfold groups_of. induction l as [|x l IH]; intros Hnd Hf Hf' Hg Hg'.
  - apply elem_of_nil in Hf as [].
  - assert (∀ y, y ∈ l → File.group y = Some g → g ∈ omap File.group l) as Hin.
    { intros y Hy Hgy. apply list_elem_of_omap. by exists y. }
    simpl in Hnd.
    apply elem_of_cons in Hf as [-> | Hf], Hf' as [-> | Hf']; [done | | |].
    + rewrite Hg in Hnd. apply NoDup_cons in Hnd as [Hnin _].
      destruct Hnin. by apply (Hin f').
    + rewrite Hg' in Hnd. apply NoDup_cons in Hnd as [Hnin _].
      destruct Hnin. by apply (Hin f).
    + apply IH; try done.
      destruct (File.group x); [by apply NoDup_cons in Hnd as [_ ?] | done].
Qed.

(** When the filter returns, every group of the input is carried by one
    returned descriptor and by no other. *)
Theorem filter_one_per_group `{Runtime} (src : list File.t) (section : str)
    (ret : list File.t) (g : str) :
  _filter src section = Ok ret → g ∈ groups_of src →
  ∃ f, f ∈ ret ∧ File.group f = Some g ∧
    ∀ f', f' ∈ ret → File.group f' = Some g → f' = f.
Proof.
  intros Hok Hg. apply filter_ok_inv in Hok as (_ & _ & Hnd & Hall).
  apply Hall, list_elem_of_omap in Hg as (f & Hf & Hgroup).
  exists f. split; [done |]. split; [done |].
  intros f' Hf' Hgroup'. by apply (group_once ret f' f g).
Qed.

Lemma filter_one_per_group_witness :
  let lin := grouped "f3" "daaddaad" "f3-binary"
               [marker_of sys_platform "sys_platform" "linux"] in
  ∃ f, f ∈ [plain "f1" "deadbeef"; lin] ∧
    File.group f = Some (lit "f3-binary").
Proof.
  intros lin.
  destruct (filter_one_per_group (H := linux_host)
              [plain "f1" "deadbeef";
               grouped "f3.exe" "baadbaad" "f3-binary"
                 [marker_of sys_platform "sys_platform" "win32"];
               lin]
              (lit "example") [plain "f1" "deadbeef"; lin] (lit "f3-binary"))
    as (f & Hf & Hg & _).
  - vm_compute. reflexivity.
  - vm_compute. left.
  - exists f. split; [exact Hf | exact Hg].
Defined.

(** ** The fetch step, further *)

Lemma download_ok_inv `{Runtime} (f : File.t) (base : str)
    (fs fs' : gmap str bytes) :
  _download f base fs = Ok fs' →
  ∃ contents extract data,
    urlopen_read (File.url f) = Ok contents ∧
    hashlib.sha256_hexdigest contents = File.sha256 f ∧
    _EXTRACT !! Archive.strategy (File.archive f) = Some extract ∧
    extract contents (Archive.path (File.archive f)) = Ok data ∧
    fs' = <[os_path_join base (File.path f) := data]> fs.
Proof.
  unfold _download.
  destruct (urlopen_read (File.url f)) as [contents|] eqn:Hread; [| discriminate].
  simpl. unfold compare_digest.
  destruct (isascii _ && isascii _); [| discriminate]. simpl.
  unfold str_eqb. case_bool_decide as Hsame; simpl; [| discriminate].
  unfold store, _EXTRACT_getitem.
  destruct (_EXTRACT !! _) as [extract|] eqn:Hextract; [| discriminate]. simpl.
  destruct (extract contents _) as [data|] eqn:Hdata; [| discriminate]. simpl.
  intros [= <-]. by exists contents, extract, data.
Qed.

(** A download that returns has read bytes whose digest is the expected
    one, has found the strategy and got the member from it, and has changed
    the files in one place only: the member is under the destination. *)
Theorem download_verified `{Runtime} (f : File.t) (base : str)
    (fs fs' : gmap str bytes) :
  _download f base fs = Ok fs' →
  ∃ contents extract data,
    urlopen_read (File.url f) = Ok contents ∧
    hashlib.sha256_hexdigest contents = File.sha256 f ∧
    _EXTRACT !! Archive.strategy (File.archive f) = Some extract ∧
    extract contents (Archive.path (File.archive f)) = Ok data ∧
    fs' = <[os_path_join base (File.path f) := data]> fs.
Proof. apply download_ok_inv. Qed.

Lemma download_verified_witness :
  ∃ contents,
    @urlopen_read linux_host (lit "http://localhost/plain") = Ok contents ∧
    hashlib.sha256_hexdigest contents = lit DIGEST_LOWER.
Proof.
  destruct (download_verified (H := linux_host) (served DIGEST_LOWER)
              (lit "build/download/data_files") ∅
              {[ lit "build/download/data_files/share/example/f"
                 := list_byte_of_string "hello hello" ]})
    as (contents & _ & _ & Hread & Hdigest & _).
  - vm_compute. reflexivity.
  - exists contents. split; [exact Hread | exact Hdigest].
Defined.

(** ** The download command *)

Lemma method_parse_inv `{Runtime} (self : setuptools_download.t) (attr : str)
    (ret : list File.t) :
  setuptools_download._parse self attr = Ok ret →
  ∃ text files, _parse text attr = Ok files ∧ _filter files attr = Ok ret.
Proof.
  unfold setuptools_download._parse.
  destruct (setuptools_download.getattr self attr) as [text|]; [| discriminate].
  simpl. destruct (_parse text attr) as [files|] eqn:Hparse; [| discriminate].
  simpl. intros Hfilter. by exists text, files.
Qed.

(** What the command hands to the download: descriptors that repeat no
    path and no group, each of them applying on the host, with a path that
    is a section header, a strategy that [_EXTRACT] has, and a group when
    it has markers. *)
Theorem resolved_descriptors `{Runtime} (self : setuptools_download.t)
    (attr : str) (ret : list File.t) :
  setuptools_download._parse self attr = Ok ret →
  NoDup (paths_of ret) ∧ NoDup (groups_of ret) ∧
  ∀ f, f ∈ ret →
    applies _default_env f ∧
    header_name (File.path f) ∧
    (∃ extract, _EXTRACT_getitem (Archive.strategy (File.archive f)) = Ok extract) ∧
    (File.markers f ≠ [] → ∃ g, File.group f = Some g ∧ g ≠ lit "").
Proof.
  intros (text & files & Hparse & Hfilter)%method_parse_inv.
  apply filter_ok_inv in Hfilter as (Hret & Hp & Hg & _).
  split; [done |]. split; [done |]. intros f Hf.
  rewrite Hret, selection_filter in Hf.
  apply list_elem_of_filter in Hf as [Happlies Hin].
  split; [done |].
  destruct (parsed_paths_facts _ _ _ Hparse) as (parts & _ & _ & Hnames).
  rewrite Forall_forall in Hnames. split; [by apply Hnames |].
  destruct (parsed_archive_facts _ _ _ f Hparse Hin) as [_ Hextract].
  split; [done |].
  by destruct (parsed_group_facts _ _ _ f Hparse Hin) as [Hgroup _].
Qed.

Lemma resolved_descriptors_witness :
  NoDup (paths_of [plain "f1" "deadbeef";
                   File.mk (lit "f2") (lit "https://example.com/f2.tar.gz")
                     (lit "cafecafe")
                     (Archive.mk (lit "tar") (lit "release-1.0/f2")) None [];
                   grouped "f3" "daaddaad" "f3-binary"
                     [marker_of sys_platform "sys_platform" "linux"]]).
Proof.
  refine (proj1 (resolved_descriptors (H := linux_host)
                   (setuptools_download.mk (Some MANIFEST_TEST) None None None
                      None None)
                   (lit "download_data_files")
                   [plain "f1" "deadbeef";
                    File.mk (lit "f2") (lit "https://example.com/f2.tar.gz")
                      (lit "cafecafe")
                      (Archive.mk (lit "tar") (lit "release-1.0/f2")) None [];
                    grouped "f3" "daaddaad" "f3-binary"
                      [marker_of sys_platform "sys_platform" "linux"]] _)).
  vm_compute. reflexivity.
Defined.








(** The options of the command of the examples, resolved. *)
Example finalize_served :
  @setuptools_download.finalize_options linux_host (Some (lit "build/temp"))
    COMMAND_SERVED
  = Ok COMMAND_FINALIZED.
Proof. vm_compute. reflexivity. Qed.





(** ** The fields of a parsed descriptor *)

Lemma parse_lines_markers_order (section path : str) (lines : list str)
    (values0 values : gmap str str) (markers0 markers : list Marker.t) :
  parse_lines section path lines values0 markers0 = Ok (values, markers) →
  ∃ ms, markers = markers0 ++ ms ∧
    Forall2 (λ text m, Marker.parse text = Ok m) (marker_texts lines) ms.
Proof.
  revert values0 markers0.
  induction lines as [|l lines IH]; intros values0 markers0 Hok.
  - simpl in Hok. injection Hok as <- <-. exists []. split; [| constructor].
    by rewrite app_nil_r.
  - simpl in Hok. unfold marker_texts. simpl.
    destruct (split1 EQUALS l) as [|k' [|v' [|? ?]]]; try discriminate.
    destruct (str_eqb (strip k') (lit "marker")).
    + destruct (Marker.parse (strip v')) as [m|e] eqn:Hm; [| discriminate].
      simpl in Hok. apply IH in Hok as (ms & -> & Hms).
      exists (m :: ms). split; [by rewrite <- app_assoc |].
      simpl. by constructor.
    + case_bool_decide; [| discriminate].
      case_bool_decide; [discriminate |]. by apply IH in Hok.
Qed.

(** The descriptor of a section holds what the lines of the section say:
    its markers are the texts of the [marker] lines, parsed, in the order of
    the lines, and its URL, digest and group are the values of the [url],
    [sha256] and [group] lines, without the white space around them. *)
Theorem parsed_fields `{Runtime} (s : option str) (section : str)
    (files : list File.t) (parts : list str) (i : nat) (path body : str)
    (f : File.t) :
  _parse s section = Ok files →
  _SECTION_split (strip (or_empty s)) = lit "" :: parts →
  zip_pairs parts !! i = Some (path, body) → files !! i = Some f →
  File.path f = path ∧
  Forall2 (λ text m, Marker.parse text = Ok m)
    (marker_texts (splitlines (strip body))) (File.markers f) ∧
  ∀ line k v,
    line ∈ splitlines (strip body) → split1 EQUALS line = [k; v] →
    (strip k = lit "url" → File.url f = strip v) ∧
    (strip k = lit "sha256" → File.sha256 f = strip v) ∧
    (strip k = lit "group" → File.group f = Some (strip v)).
Proof.
  intros Hok Hsplit Hi Hf.
  apply _parse_ok_inv in Hok as (parts' & Hsplit' & Hok).
  rewrite Hsplit in Hsplit'. injection Hsplit' as <-.
  apply parse_sections_ok_inv in Hok.
  pose proof (Forall2_lookup_lr _ _ _ _ _ _ Hok Hi Hf) as Hsec. simpl in Hsec.
  apply parse_section_ok_inv in Hsec as (values & markers & Hlines & Hbuild).
  apply build_file_ok_inv in Hbuild
    as (Hpath & Hmarkers & Hgroup & Hurl & Hsha & _).
  split; [done |]. split.
  - rewrite Hmarkers.
    by apply parse_lines_markers_order in Hlines as (ms & -> & Hms).
  - intros line k v Hline Hkv.
    assert (∀ key, strip k = key → key ≠ lit "marker" →
              values !! key = Some (strip v)) as Hvalue.
    { intros key <- Hne.
      by apply (parse_lines_values _ _ _ _ _ _ _ line k v Hlines). }
    split; [| split]; intros Hk.
    + specialize (Hvalue _ Hk ltac:(discriminate)). congruence.
    + specialize (Hvalue _ Hk ltac:(discriminate)). congruence.
    + specialize (Hvalue _ Hk ltac:(discriminate)). congruence.
Qed.

Lemma parsed_fields_witness :
  Forall2 (λ text m, Marker.parse text = Ok m)
    [clause "sys_platform" "cygwin"; clause "sys_platform" "win32"]
    [marker_of sys_platform "sys_platform" "cygwin";
     marker_of sys_platform "sys_platform" "win32"].
Proof.
  refine (proj1 (proj2 (parsed_fields (H := linux_host) (Some MANIFEST_TEST)
                          (lit "example") FILES_TEST
                          (tail (_SECTION_split (strip MANIFEST_TEST)))
                          2 (lit "f3.exe")
                          (default [] (_SECTION_split (strip MANIFEST_TEST)
                                       !! 6%nat))
                          (grouped "f3.exe" "baadbaad" "f3-binary"
                             [marker_of sys_platform "sys_platform" "cygwin";
                              marker_of sys_platform "sys_platform" "win32"])
                          _ _ _ _)));
    vm_compute; reflexivity.
Defined.
